(** * joern_to_neo4j: the import-script rewriter and the import driver

    A shallow embedding of [joern_to_neo4j.py].  Python [str] values are
    lists of characters; a character is an [ascii], read as a code point in
    0..255, and the character classes below are Python's for that range.
    The file system, the external Joern commands and the Neo4j driver are
    explicit arguments of the functions that use them. *)

From Stdlib Require Import String Ascii List Bool Arith NArith ZArith Lia.
From Stdlib Require Import DecimalString Sorting.Sorted Sorting.Permutation.
Import ListNotations.

Set Implicit Arguments.

(* ================================================================== *)
(** * Text *)

Definition text := list ascii.

Definition str (s : string) : text := list_ascii_of_string s.

Definition code (c : ascii) : N := N_of_ascii c.

Definition in_range (lo hi : N) (c : ascii) : bool :=
  ((lo <=? code c) && (code c <=? hi))%N.

Definition is_code (n : N) (c : ascii) : bool := (code c =? n)%N.

(** [str.isspace] and the class [\s] of a [str] pattern. *)
Definition is_space (c : ascii) : bool :=
  in_range 9 13 c || in_range 28 32 c || is_code 133 c || is_code 160 c.

(** The class [\w] of a [str] pattern: alphanumeric or underscore. *)
Definition is_word (c : ascii) : bool :=
  in_range 48 57 c || in_range 65 90 c || is_code 95 c || in_range 97 122 c
  || is_code 170 c || in_range 178 179 c || is_code 181 c
  || in_range 185 186 c || in_range 188 190 c || in_range 192 214 c
  || in_range 216 246 c || in_range 248 255 c.

Definition is_digit (c : ascii) : bool := in_range 48 57 c.
Definition is_octdigit (c : ascii) : bool := in_range 48 55 c.
Definition is_ascii_letter (c : ascii) : bool :=
  in_range 65 90 c || in_range 97 122 c.

Definition quote : ascii := "'"%char.
Definition backslash : ascii := "\"%char.
Definition newline : ascii := "010"%char.
Definition slash : ascii := "/"%char.

Definition not_quote (c : ascii) : bool := negb (Ascii.eqb c quote).

(** Lower case of the letters A-Z; the literals of the pattern are ASCII, so
    this is all that case-insensitive matching needs below code point 256. *)
Definition lower (c : ascii) : ascii :=
  if in_range 65 90 c then ascii_of_N (code c + 32) else c.

Definition ci_eqb (a b : ascii) : bool := Ascii.eqb (lower a) (lower b).

Fixpoint text_eqb (a b : text) : bool :=
  match a, b with
  | [], [] => true
  | x :: a', y :: b' => Ascii.eqb x y && text_eqb a' b'
  | _, _ => false
  end.

(** [s.lstrip()], [s.rstrip()] and [s.strip()]. *)
Fixpoint lstrip (s : text) : text :=
  match s with
  | c :: s' => if is_space c then lstrip s' else s
  | [] => []
  end.

Definition rstrip (s : text) : text := rev (lstrip (rev s)).

Definition strip (s : text) : text := rstrip (lstrip s).

(** [s[0:-1]]: the text without its last character. *)
Definition drop_last (s : text) : text := removelast s.

(** [s.replace(chr(10), chr(10) + '    ')]. *)
Definition indent_newlines (s : text) : text :=
  flat_map (fun c => if Ascii.eqb c newline then newline :: str "    " else [c]) s.

Definition decimal (n : N) : text := str (NilEmpty.string_of_uint (N.to_uint n)).

(* ================================================================== *)
(** * Regular expressions

    The fragment of [re] that [pattern_load_csv] uses, with the
    backtracking semantics of the [re] module: sequences are matched left
    to right, a repetition or an option first takes as much as it can and
    gives back on failure, and a group records the text it matched. *)

Inductive regex : Type :=
| Lit (l : text)                 (* a literal, compared ignoring case *)
| Plus (p : ascii -> bool)       (* [c+] for a character class [c] *)
| Seq (r1 r2 : regex)
| Opt (r : regex)                (* [(?:r)?] *)
| Group (n : nat) (r : regex).   (* [(r)], group number [n] *)

Definition caps := list (nat * text).

Fixpoint lit_match (l s : text) : option text :=
  match l, s with
  | [], _ => Some s
  | a :: l', x :: s' => if ci_eqb a x then lit_match l' s' else None
  | _ :: _, [] => None
  end.

Section Engine.
Variable A : Type.

Definition cont := text -> caps -> option A.

Fixpoint star_greedy (p : ascii -> bool) (s : text) (c : caps) (k : cont)
  : option A :=
  match s with
  | x :: s' =>
      if p x then
        match star_greedy p s' c k with
        | Some r => Some r
        | None => k s c
        end
      else k s c
  | [] => k [] c
  end.

Definition plus_greedy (p : ascii -> bool) (s : text) (c : caps) (k : cont)
  : option A :=
  match s with
  | x :: s' => if p x then star_greedy p s' c k else None
  | [] => None
  end.

Fixpoint exec (r : regex) (s : text) (c : caps) (k : cont) : option A :=
  match r with
  | Lit l =>
      match lit_match l s with
      | Some s' => k s' c
      | None => None
      end
  | Plus p => plus_greedy p s c k
  | Seq r1 r2 => exec r1 s c (fun s1 c1 => exec r2 s1 c1 k)
  | Opt r1 =>
      match exec r1 s c k with
      | Some x => Some x
      | None => k s c
      end
  | Group n r1 =>
      exec r1 s c
        (fun s1 c1 => k s1 ((n, firstn (length s - length s1) s) :: c1))
  end.
End Engine.

(** A match object: where the match starts, the text of group 0 and the
    texts of the numbered groups. *)
Record re_match : Type := mk_match {
  m_start : nat;
  m_text : text;
  m_caps : caps
}.

Definition m_end (m : re_match) : nat := m_start m + length (m_text m).

Fixpoint lookup_group (n : nat) (c : caps) : text :=
  match c with
  | [] => []
  | (i, t) :: c' => if Nat.eqb i n then t else lookup_group n c'
  end.

(** [m.group(n)] *)
Definition group (m : re_match) (n : nat) : text :=
  match n with
  | O => m_text m
  | _ => lookup_group n (m_caps m)
  end.

(** [pattern.match] at the head of [s]: the text left over and the groups. *)
Definition match_here (r : regex) (s : text) : option (text * caps) :=
  exec r s [] (fun rest c => Some (rest, c)).

Fixpoint search_from (r : regex) (s : text) (pos : nat) : option re_match :=
  match match_here r s with
  | Some (rest, c) =>
      Some (mk_match pos (firstn (length s - length rest) s) c)
  | None =>
      match s with
      | [] => None
      | _ :: s' => search_from r s' (S pos)
      end
  end.

(** [pattern.search(s)]: the leftmost match. *)
Definition search (r : regex) (s : text) : option re_match := search_from r s 0.

Definition seqs (rs : list regex) : regex :=
  fold_right Seq (Lit []) rs.

(** Line 149:
    [(LOAD\s+CSV(?:\s+WITH\s+HEADERS)?\s+FROM\s+)'file:/([^']+)'(\s+AS\s+(\w+))]
    compiled with [re.IGNORECASE]. *)
Definition re_prefix : regex :=
  seqs [Lit (str "LOAD"); Plus is_space; Lit (str "CSV");
        Opt (seqs [Plus is_space; Lit (str "WITH"); Plus is_space;
                   Lit (str "HEADERS")]);
        Plus is_space; Lit (str "FROM"); Plus is_space].

Definition re_suffix : regex :=
  seqs [Plus is_space; Lit (str "AS"); Plus is_space; Group 4 (Plus is_word)].

Definition pattern_load_csv : regex :=
  seqs [Group 1 re_prefix; Lit (str "'file:/"); Group 2 (Plus not_quote);
        Lit (str "'"); Group 3 re_suffix].

(** Number of groups of [pattern_load_csv]. *)
Definition pattern_groups : N := 4.

(* ================================================================== *)
(** * Reading a regular expression declaratively *)

(** [matched r m c c']: the expression [r] can match exactly the text [m],
    turning the groups [c] into [c'].  The engine above returns the first
    such match in its search order. *)
Inductive matched : regex -> text -> caps -> caps -> Prop :=
| M_Lit : forall l m c,
    lit_match l m = Some [] -> matched (Lit l) m c c
| M_Plus : forall p x w c,
    p x = true -> forallb p w = true -> matched (Plus p) (x :: w) c c
| M_Seq : forall r1 r2 m1 m2 c c1 c2,
    matched r1 m1 c c1 -> matched r2 m2 c1 c2 ->
    matched (Seq r1 r2) (m1 ++ m2) c c2
| M_OptNone : forall r c, matched (Opt r) [] c c
| M_OptSome : forall r m c c',
    matched r m c c' -> matched (Opt r) m c c'
| M_Group : forall n r m c c',
    matched r m c c' -> matched (Group n r) m c ((n, m) :: c').

(** The pattern matches at offset [q] of [s]. *)
Definition matches_at (r : regex) (s : text) (q : nat) : Prop :=
  match_here r (skipn q s) <> None.

(** The 256 characters. *)
Definition all_chars : list ascii := map ascii_of_nat (seq 0 256).

(** Every character that [r] can match satisfies [f]. *)
Fixpoint confined (f : ascii -> bool) (r : regex) : bool :=
  match r with
  | Lit l =>
      forallb (fun a => forallb (fun x => implb (ci_eqb a x) (f x)) all_chars) l
  | Plus p => forallb (fun x => implb (p x) (f x)) all_chars
  | Seq r1 r2 => confined f r1 && confined f r2
  | Opt r1 => confined f r1
  | Group _ r1 => confined f r1
  end.

(** [s] is empty or starts with a character outside [p]. *)
Definition stops (p : ascii -> bool) (s : text) : bool :=
  match s with
  | [] => true
  | x :: _ => negb (p x)
  end.

Definition not_backslash (c : ascii) : bool := negb (Ascii.eqb c backslash).

(** The letter L in either case, and the other characters. *)
Definition is_L (c : ascii) : bool := ci_eqb "L" c.
Definition not_L (c : ascii) : bool := negb (is_L c).

(** [re_prefix] after its first literal. *)
Definition re_prefix_tail : regex :=
  seqs [Plus is_space; Lit (str "CSV");
        Opt (seqs [Plus is_space; Lit (str "WITH"); Plus is_space;
                   Lit (str "HEADERS")]);
        Plus is_space; Lit (str "FROM"); Plus is_space].

(** The groups of a match of [pattern_load_csv], as the engine leaves them. *)
Definition clause_caps (g1 g2 g3 g4 : text) : caps :=
  [(3, g3); (4, g4); (2, g2); (1, g1)].

(** [r] has no group. *)
Fixpoint groupless (r : regex) : bool :=
  match r with
  | Lit _ => true
  | Plus _ => true
  | Seq r1 r2 => groupless r1 && groupless r2
  | Opt r1 => groupless r1
  | Group _ _ => false
  end.

(** The text [g3] is [\s+AS\s+] followed by the word [g4]. *)
Definition suffix_parts (g3 g4 : text) : Prop :=
  exists w6 a w7,
    g3 = w6 ++ a ++ w7 ++ g4
    /\ w6 <> [] /\ forallb is_space w6 = true
    /\ lit_match (str "AS") a = Some []
    /\ w7 <> [] /\ forallb is_space w7 = true
    /\ g4 <> [] /\ forallb is_word g4 = true.

(** The parts of a LOAD CSV clause [g1 ' l6 g2 ' g3]: the text of group 1,
    the scheme [file:/] as it is spelled, the file reference (group 2) and
    the text of group 3, which ends with the variable (group 4). *)
Definition clause_parts (g1 l6 g2 g3 g4 : text) : Prop :=
  matched re_prefix g1 [] []
  /\ lit_match (str "file:/") l6 = Some []
  /\ g2 <> [] /\ forallb not_quote g2 = true
  /\ suffix_parts g3 g4.

Definition clause_text (g1 l6 g2 g3 : text) : text :=
  g1 ++ quote :: l6 ++ g2 ++ quote :: g3.

(** The last thing [r] matches is a run [p+] (inside groups, and before
    empty literals only). *)
Inductive ends_run (p : ascii -> bool) : regex -> Prop :=
| ER_Plus : ends_run p (Plus p)
| ER_Seq : forall r1 r2, ends_run p r2 -> ends_run p (Seq r1 r2)
| ER_SeqNil : forall r1, ends_run p r1 -> ends_run p (Seq r1 (Lit []))
| ER_Group : forall n r, ends_run p r -> ends_run p (Group n r).

(** The pattern matches at offset [q0] at most, among all offsets of [s]. *)
Definition no_match_except (r : regex) (s : text) (q0 : nat) : bool :=
  forallb (fun q => Nat.eqb q q0
                    || match match_here r (skipn q s) with
                       | None => true
                       | Some _ => false
                       end)
          (seq 0 (S (length s))).

(* ================================================================== *)
(** * Replacement templates ([re] module, [parse_template])

    [pattern.sub(repl, s, count=1)] with a string [repl] processes the
    backslash escapes of [repl]: group references, octal escapes and the
    usual control characters; an unknown escape of an ASCII letter, a
    reference to a group the pattern does not have, and a backslash at the
    end raise [re.error]. *)

Inductive token : Type :=
| TChar (c : ascii)
| TEsc (c : ascii).     (* a backslash and the character after it *)

Fixpoint tokenize (s : text) : option (list token) :=
  match s with
  | [] => Some []
  | c :: s' =>
      if Ascii.eqb c backslash then
        match s' with
        | [] => None
        | d :: s'' => option_map (cons (TEsc d)) (tokenize s'')
        end
      else option_map (cons (TChar c)) (tokenize s')
  end.

Inductive item : Type :=
| ILit (l : text)
| IGroup (n : N).

Definition digit_val (c : ascii) : N := (code c - 48)%N.

(** [int(ds, base)] on a text of digits. *)
Definition int_of (base : N) (ds : text) : N :=
  fold_left (fun acc d => acc * base + digit_val d)%N ds 0%N.

Definition token_text (t : token) : text :=
  match t with
  | TChar c => [c]
  | TEsc c => [backslash; c]
  end.

(** The table [ESCAPES] of the template parser. *)
Definition escape_char (c : ascii) : option ascii :=
  if Ascii.eqb c "a" then Some "007"%char
  else if Ascii.eqb c "b" then Some "008"%char
  else if Ascii.eqb c "f" then Some "012"%char
  else if Ascii.eqb c "n" then Some "010"%char
  else if Ascii.eqb c "r" then Some "013"%char
  else if Ascii.eqb c "t" then Some "009"%char
  else if Ascii.eqb c "v" then Some "011"%char
  else if Ascii.eqb c backslash then Some backslash
  else None.

Definition addgroup (index : N) : option item :=
  if (pattern_groups <? index)%N then None else Some (IGroup index).

(** A group name [\g<name>]: the pattern has no named groups, so only a name
    of ASCII digits denotes a group (CPython 3.12 and later; earlier
    versions also take what [int] parses, with a deprecation warning). *)
Definition group_of_name (name : text) : option item :=
  match name with
  | [] => None
  | _ => if forallb is_digit name then addgroup (int_of 10 name) else None
  end.

Definition next_is (p : ascii -> bool) (ts : list token) : bool :=
  match ts with
  | TChar d :: _ => p d
  | _ => false
  end.

Definition cons_item (i : item) (r : option (list item)) : option (list item) :=
  option_map (cons i) r.

(** [in_name]: [None] outside a group name, [Some acc] while reading the name
    of [\g<...>] up to the closing [>]. *)
Fixpoint parse_tokens (ts : list token) (in_name : option text)
  : option (list item) :=
  match in_name with
  | Some acc =>
      match ts with
      | [] => None
      | TChar c :: ts' =>
          if Ascii.eqb c ">" then
            match group_of_name acc with
            | Some g => cons_item g (parse_tokens ts' None)
            | None => None
            end
          else parse_tokens ts' (Some (acc ++ [c]))
      | TEsc c :: ts' => parse_tokens ts' (Some (acc ++ [backslash; c]))
      end
  | None =>
      match ts with
      | [] => Some []
      | TChar c :: ts' => cons_item (ILit [c]) (parse_tokens ts' None)
      | TEsc c :: ts' =>
          if Ascii.eqb c "g" then
            match ts' with
            | TChar lt :: ts'' =>
                if Ascii.eqb lt "<" then parse_tokens ts'' (Some []) else None
            | _ => None
            end
          else if Ascii.eqb c "0" then
            match ts' with
            | TChar d1 :: ts1 =>
                if is_octdigit d1 then
                  match ts1 with
                  | TChar d2 :: ts2 =>
                      if is_octdigit d2 then
                        cons_item
                          (ILit [ascii_of_N (N.land (int_of 8 [c; d1; d2]) 255)])
                          (parse_tokens ts2 None)
                      else
                        cons_item (ILit [ascii_of_N (int_of 8 [c; d1])])
                                  (parse_tokens ts1 None)
                  | _ => cons_item (ILit [ascii_of_N (int_of 8 [c; d1])])
                                   (parse_tokens ts1 None)
                  end
                else cons_item (ILit [ascii_of_N 0]) (parse_tokens ts' None)
            | _ => cons_item (ILit [ascii_of_N 0]) (parse_tokens ts' None)
            end
          else if is_digit c then
            match ts' with
            | TChar d1 :: ts1 =>
                if is_digit d1 then
                  if is_octdigit c && is_octdigit d1 && next_is is_octdigit ts1
                  then
                    match ts1 with
                    | TChar d2 :: ts2 =>
                        if (255 <? int_of 8 [c; d1; d2])%N then None
                        else cons_item (ILit [ascii_of_N (int_of 8 [c; d1; d2])])
                                       (parse_tokens ts2 None)
                    | _ => None
                    end
                  else
                    match addgroup (int_of 10 [c; d1]) with
                    | Some g => cons_item g (parse_tokens ts1 None)
                    | None => None
                    end
                else
                  match addgroup (digit_val c) with
                  | Some g => cons_item g (parse_tokens ts' None)
                  | None => None
                  end
            | _ =>
                match addgroup (digit_val c) with
                | Some g => cons_item g (parse_tokens ts' None)
                | None => None
                end
            end
          else
            match escape_char c with
            | Some e => cons_item (ILit [e]) (parse_tokens ts' None)
            | None =>
                if is_ascii_letter c then None
                else cons_item (ILit [backslash; c]) (parse_tokens ts' None)
            end
      end
  end.

Definition parse_template (repl : text) : option (list item) :=
  match tokenize repl with
  | Some ts => parse_tokens ts None
  | None => None
  end.

Definition expand_item (m : re_match) (i : item) : text :=
  match i with
  | ILit l => l
  | IGroup n => group m (N.to_nat n)
  end.

Definition expand_template (t : list item) (m : re_match) : text :=
  flat_map (expand_item m) t.

(** [pattern.sub(repl, s, count=1)]: [None] stands for [re.error]. *)
Definition sub_first (r : regex) (repl : text) (s : text) : option text :=
  match parse_template repl with
  | None => None
  | Some t =>
      match search r s with
      | None => Some s
      | Some m => Some (firstn (m_start m) s ++ expand_template t m
                          ++ skipn (m_end m) s)
      end
  end.


(* ================================================================== *)
(** * Paths and the file system *)

(** A path is the list of its components; [parent / name] appends one. *)
Definition Path := list text.

Definition is_nil (A : Type) (l : list A) : bool :=
  match l with [] => true | _ => false end.

(** [s.split(sep)] *)
Fixpoint split_on (sep : ascii) (s : text) : list text :=
  match s with
  | [] => [[]]
  | c :: s' =>
      if Ascii.eqb c sep then [] :: split_on sep s'
      else match split_on sep s' with
           | h :: t => (c :: h) :: t
           | [] => [[c]]
           end
  end.

(** [Path(s)]: empty components and [.] components are dropped. *)
Definition parse_path (s : text) : Path :=
  filter (fun x => negb (is_nil x) && negb (text_eqb x (str ".")))
         (split_on slash s).

(** [p.name]: the final component, or the empty text. *)
Definition name (p : Path) : text := last p [].

(** [p.parent] *)
Definition parent (p : Path) : Path := removelast p.

(** [p / n] for a text [n] without separators. *)
Definition joinpath (p : Path) (n : text) : Path := p ++ parse_path n.

Inductive fs_node : Type :=
| Missing
| Regular
| Directory (entries : list text).

Inductive read_result : Type :=
| ReadOk (content : text)
| ReadNotFound          (* FileNotFoundError *)
| ReadFailed.           (* any other exception of [read_text] *)

Record filesystem : Type := mk_fs {
  stat : Path -> fs_node;
  read_text : Path -> read_result
}.

Definition is_file (fs : filesystem) (p : Path) : bool :=
  match stat fs p with Regular => true | _ => false end.

Definition is_dir (fs : filesystem) (p : Path) : bool :=
  match stat fs p with Directory _ => true | _ => false end.

(* ================================================================== *)
(** * File discovery ([get_cypher_files], lines 95-125) *)

Inductive exception : Type :=
| FileNotFoundError
| AttributeError (attr : string).

(** [fnmatch] for a pattern of literal characters and [*]. *)
Fixpoint glob_match (pat : text) : text -> bool :=
  match pat with
  | [] => fun nm => is_nil nm
  | c :: pat' =>
      if Ascii.eqb c "*" then
        fix star (nm : text) : bool :=
          glob_match pat' nm
          || match nm with
             | [] => false
             | _ :: nm' => star nm'
             end
      else
        fun nm =>
          match nm with
          | x :: nm' => Ascii.eqb x c && glob_match pat' nm'
          | [] => false
          end
  end.

(** [d.glob(pat)] for a pattern without separators. *)
Definition glob (fs : filesystem) (d : Path) (pat : text) : list Path :=
  match stat fs d with
  | Directory entries => map (fun n => d ++ [n]) (filter (glob_match pat) entries)
  | _ => []
  end.

Section Lex.
Variable A : Type.
Variable cmp : A -> A -> comparison.

(** The order of Python sequences: the first difference decides, and a
    proper prefix comes first. *)
Fixpoint lex_compare (a b : list A) : comparison :=
  match a, b with
  | [], [] => Eq
  | [], _ :: _ => Lt
  | _ :: _, [] => Gt
  | x :: a', y :: b' =>
      match cmp x y with
      | Eq => lex_compare a' b'
      | o => o
      end
  end.
End Lex.

Definition char_compare (a b : ascii) : comparison := N.compare (code a) (code b).
Definition text_compare : text -> text -> comparison := lex_compare char_compare.
Definition path_compare : Path -> Path -> comparison := lex_compare text_compare.

Definition path_leb (a b : Path) : bool :=
  match path_compare a b with Gt => false | _ => true end.

Fixpoint insert_sorted (x : Path) (l : list Path) : list Path :=
  match l with
  | [] => [x]
  | y :: l' => if path_leb x y then x :: l else y :: insert_sorted x l'
  end.

(** [sorted(l)] on paths. *)
Definition sorted (l : list Path) : list Path := fold_right insert_sorted [] l.

Definition get_cypher_files (fs : filesystem) (output_dir : Path)
  : exception + (list Path * list Path) :=
  if negb (is_dir fs output_dir) then inl FileNotFoundError
  else
    let node_cypher_files := sorted (glob fs output_dir (str "nodes_*_cypher.csv")) in
    let edge_cypher_files := sorted (glob fs output_dir (str "edges_*_cypher.csv")) in
    inr (node_cypher_files, edge_cypher_files).

(* ================================================================== *)
(** * The rewrite step (lines 188-246 of [import_online_neo4j]) *)

Definition BATCH_SIZE : N := 1000.

Inductive rewrite_result : Type :=
| MalformedScript            (* line 189: no LOAD CSV clause found *)
| DataFileMissing            (* line 203 *)
| SubError                   (* [re.error] out of [sub], caught at line 280 *)
| InternalError              (* line 223: the second search fails *)
| EmptyBody                  (* line 232: nothing after the clause *)
| Rewritten (batched_cypher : text).

(** Lines 237-246. *)
Definition batched_query (load_clause_full variable_name core_logic : text)
    (script_name : text) : text :=
  load_clause_full ++ [newline]
  ++ str "CALL {" ++ [newline]
  ++ str "    WITH " ++ variable_name ++ [newline]
  ++ str "    " ++ indent_newlines (drop_last core_logic) ++ [newline]
  ++ str "} IN TRANSACTIONS OF " ++ decimal BATCH_SIZE ++ str " ROWS" ++ [newline]
  ++ str "RETURN 'Batch processed from " ++ script_name ++ str "'".

Definition rewrite (fs : filesystem) (cypher_file_path : Path)
    (cypher_content : text) : rewrite_result :=
  match search pattern_load_csv (drop_last cypher_content) with
  | None => MalformedScript
  | Some m =>
      let load_clause_prefix := group m 1 in
      let relative_data_filename := group m 2 in
      let load_clause_suffix := group m 3 in
      let variable_name := group m 4 in
      let data_file_path :=
        joinpath (parent cypher_file_path)
                 (name (parse_path relative_data_filename)) in
      if negb (is_file fs data_file_path) then DataFileMissing
      else
        let data_file_abs_uri := str "file:///" ++ name data_file_path in
        match sub_first pattern_load_csv
                (load_clause_prefix ++ [quote] ++ data_file_abs_uri ++ [quote]
                   ++ load_clause_suffix)
                cypher_content with
        | None => SubError
        | Some modified_cypher =>
            match search pattern_load_csv modified_cypher with
            | None => InternalError
            | Some match_modified =>
                let load_clause_end_index := m_end match_modified in
                let load_clause_full :=
                  firstn load_clause_end_index modified_cypher in
                let core_logic :=
                  strip (skipn load_clause_end_index modified_cypher) in
                if is_nil core_logic then EmptyBody
                else Rewritten (batched_query load_clause_full variable_name
                                  core_logic (name cypher_file_path))
            end
        end
  end.


(* ================================================================== *)
(** * The import driver ([import_online_neo4j], lines 128-297) *)

(** What [session.run(query).consume()] does. *)
Inductive run_outcome : Type :=
| RunOk
| RunClientError (message : text)   (* neo4j ClientError *)
| RunException.                     (* any other exception *)

(** The Neo4j driver: running a query against a named database changes the
    database and succeeds or raises. *)
Record driver (DB : Type) : Type := mk_driver {
  session_run : text -> text -> DB -> run_outcome * DB
}.

Inductive event : Type :=
| Visit (p : Path)                  (* the loop takes up file [p] *)
| Run (p : Path) (query : text).    (* the query built from [p] is sent *)

Record loop_state (DB : Type) : Type := mk_state {
  import_errors : bool;
  processed_files : nat;
  database : DB;
  trace : list event
}.

Definition constraint_query : text :=
  str "CREATE CONSTRAINT JoernNodeIdConstraint IF NOT EXISTS FOR (n:JoernNode) REQUIRE n.id IS UNIQUE".

Section Driver.
Variable DB : Type.
Variable drv : driver DB.
Variable database_name : text.
Variable fs : filesystem.

Definition log_event (e : event) (st : loop_state DB) : loop_state DB :=
  mk_state (import_errors st) (processed_files st) (database st)
           (trace st ++ [e]).

Definition set_error (st : loop_state DB) : loop_state DB :=
  mk_state true (processed_files st) (database st) (trace st).

(** Lines 251-263 and the handlers at 268-282. *)
Definition execute (cypher_file_path : Path) (batched_cypher : text)
    (st : loop_state DB) : loop_state DB :=
  let st1 := log_event (Run cypher_file_path batched_cypher) st in
  match session_run drv database_name batched_cypher (database st1) with
  | (RunOk, db') =>
      mk_state (import_errors st1) (S (processed_files st1)) db' (trace st1)
  | (RunClientError _, db') =>
      mk_state true (processed_files st1) db' (trace st1)
  | (RunException, db') =>
      mk_state true (processed_files st1) db' (trace st1)
  end.

(** One iteration of the loop at line 178. *)
Definition process_file (st : loop_state DB) (cypher_file_path : Path)
  : loop_state DB :=
  let st0 := log_event (Visit cypher_file_path) st in
  match read_text fs cypher_file_path with
  | ReadNotFound => set_error st0
  | ReadFailed => set_error st0
  | ReadOk cypher_content =>
      if is_nil (strip cypher_content) then st0
      else
        match rewrite fs cypher_file_path cypher_content with
        | MalformedScript => set_error st0
        | DataFileMissing => set_error st0
        | SubError => set_error st0
        | InternalError => set_error st0
        | EmptyBody => st0
        | Rewritten batched_cypher => execute cypher_file_path batched_cypher st0
        end
  end.

(** The loop at line 178 over a list of files. *)
Definition process_files (files : list Path) (st : loop_state DB)
  : loop_state DB :=
  fold_left process_file files st.

(** Lines 156-178: the constraint is attempted, its outcome only logged;
    then the files are processed, node files first. *)
Definition import_loop (db : DB) (node_cypher_files edge_cypher_files : list Path)
  : loop_state DB :=
  let db1 := snd (session_run drv database_name constraint_query db) in
  let all_cypher_files := node_cypher_files ++ edge_cypher_files in
  process_files all_cypher_files (mk_state false 0 db1 []).

(** Lines 286-297. *)
Definition import_verdict (st : loop_state DB)
    (node_cypher_files edge_cypher_files : list Path) : bool :=
  if import_errors st then false
  else if Nat.eqb (processed_files st) 0
          && negb (is_nil node_cypher_files && is_nil edge_cypher_files)
  then false
  else if Nat.eqb (processed_files st) 0
          && (is_nil node_cypher_files && is_nil edge_cypher_files)
  then true
  else true.

Definition import_online_neo4j (db : DB)
    (node_cypher_files edge_cypher_files : list Path) : bool :=
  import_verdict (import_loop db node_cypher_files edge_cypher_files)
                 node_cypher_files edge_cypher_files.
End Driver.

(* ================================================================== *)
(** * [main] (lines 300-457) *)

(** [argparse.Namespace]: attribute names and values, [None] for Python's
    [None]. *)
Definition namespace := list (string * option text).

Fixpoint getattr (ns : namespace) (attr : string) : option (option text) :=
  match ns with
  | [] => None
  | (a, v) :: ns' => if String.eqb a attr then Some v else getattr ns' attr
  end.

Fixpoint setattr (ns : namespace) (attr : string) (v : option text) : namespace :=
  match ns with
  | [] => [(attr, v)]
  | (a, w) :: ns' =>
      if String.eqb a attr then (a, v) :: ns' else (a, w) :: setattr ns' attr v
  end.

(** Truth value of an optional text: [None] and the empty text are false. *)
Definition truthy (v : option text) : bool :=
  match v with
  | Some (_ :: _) => true
  | _ => false
  end.

(** The command line after [argparse] applied its defaults. *)
Record cli : Type := mk_cli {
  cli_input_path : text;
  cli_output_dir : text;
  cli_jvm_mem : text;
  cli_neo4j_uri : text;
  cli_neo4j_user : text;
  cli_neo4j_password : option text;
  cli_neo4j_database : text;
  cli_neo4j_import_dir : text
}.

(** Lines 305-324: the attributes [parse_args] creates. *)
Definition parse_args (c : cli) : namespace :=
  [("input_path"%string, Some (cli_input_path c));
   ("output_dir"%string, Some (cli_output_dir c));
   ("jvm_mem"%string, Some (cli_jvm_mem c));
   ("neo4j_uri"%string, Some (cli_neo4j_uri c));
   ("neo4j_user"%string, Some (cli_neo4j_user c));
   ("neo4j_password"%string, cli_neo4j_password c);
   ("neo4j_database"%string, Some (cli_neo4j_database c));
   ("neo4j_import_dir"%string, Some (cli_neo4j_import_dir c))].

Inductive phase : Type :=
| PhaseParse | PhaseExport | PhaseCopy | PhaseDiscover | PhaseConnect | PhaseImport.

Inductive termination : Type :=
| SysExit (status : N)
| Uncaught (e : exception).

(** The exit status of the process: an uncaught exception gives 1. *)
Definition exit_status (t : termination) : N :=
  match t with
  | SysExit n => n
  | Uncaught _ => 1%N
  end.

(** What [main] sees of the world outside. *)
Record world (DB : Type) : Type := mk_world {
  path_exists : text -> bool;
  path_isdir : text -> bool;
  path_isfile : text -> bool;
  env_password : option text;            (* os.getenv("NEO4J_PASSWORD") *)
  abspath : text -> text;
  run_command : list text -> bool;       (* success flag of [run_command] *)
  rmtree_ok : bool;                      (* shutil.rmtree raises nothing *)
  copy_ok : bool;                        (* lines 382-400 raise nothing *)
  export_fs : filesystem;                (* the files after the export *)
  connect : option (driver DB * DB)      (* lines 422-426; None: an exception *)
}.

(** The phases entered so far, and either a value or the end of the run. *)
Definition M (A : Type) : Type := list phase -> (A + termination) * list phase.

Definition ret (A : Type) (a : A) : M A := fun t => (inl a, t).

Definition bind (A B : Type) (m : M A) (f : A -> M B) : M B :=
  fun t =>
    match m t with
    | (inl a, t') => f a t'
    | (inr e, t') => (inr e, t')
    end.

Definition sys_exit (A : Type) (status : N) : M A := fun t => (inr (SysExit status), t).
Definition raise (A : Type) (e : exception) : M A := fun t => (inr (Uncaught e), t).
Definition enter (p : phase) : M unit := fun t => (inl tt, t ++ [p]).

Arguments sys_exit {A} status.
Arguments raise {A} e.

Notation "x <- m ;; f" := (bind m (fun x => f))
  (at level 61, m at next level, right associativity).
Notation "m ;;; f" := (bind m (fun _ => f))
  (at level 61, right associativity).

(** [args.attr]: AttributeError when the namespace has no such attribute. *)
Definition attr (ns : namespace) (a : string) : M (option text) :=
  match getattr ns a with
  | Some v => ret v
  | None => raise (AttributeError a)
  end.

Definition when (b : bool) (m : M unit) : M unit :=
  if b then m else ret tt.

Definition text_of (v : option text) : text :=
  match v with Some t => t | None => [] end.

(** [os.path.join(a, b)] for a relative [b]. *)
Definition path_join (a b : text) : text :=
  match rev a with
  | [] => b
  | c :: _ => if Ascii.eqb c slash then a ++ b else a ++ [slash] ++ b
  end.

Definition DEFAULT_JVM_MEM : text := str "-J-Xmx4G".

Section Main.
Variable DB : Type.
Variable w : world DB.

(** Lines 62-73. *)
Definition run_joern_parse (input_path cpg_output_path jvm_mem : text)
  : option text :=
  let command := [str "joern-parse"; jvm_mem; input_path; str "--output";
                  cpg_output_path] in
  if run_command w command then Some cpg_output_path else None.

(** Lines 75-93, with [export_format] at its default. *)
Definition run_joern_export (cpg_input_path csv_output_dir jvm_mem : text)
  : option text :=
  let command := [str "joern-export"; jvm_mem; cpg_input_path;
                  str "--repr"; str "all"; str "--format"; str "neo4jcsv";
                  str "--out"; csv_output_dir] in
  if run_command w command then Some csv_output_dir else None.

(** Lines 410-449: discovery, connection and import inside [try]; the
    handlers log and leave [import_successful] false, [sys.exit(0)] at
    line 418 passes through them. *)
Definition import_phase (args : namespace) (output_dir_path : Path) : M bool :=
  enter PhaseDiscover ;;;
  match get_cypher_files (export_fs w) output_dir_path with
  | inl _ => ret false
  | inr (node_cypher_files, edge_cypher_files) =>
      if is_nil node_cypher_files && is_nil edge_cypher_files then sys_exit 0
      else
        enter PhaseConnect ;;;
        match connect w with
        | None => ret false
        | Some (drv, db) =>
            database_name <- attr args "neo4j_database" ;;
            enter PhaseImport ;;;
            ret (import_online_neo4j drv (text_of database_name)
                   (export_fs w) db node_cypher_files edge_cypher_files)
        end
  end.

Definition main_body (c : cli) : M unit :=
  let args := parse_args c in
  (* lines 325-329 *)
  password <- attr args "neo4j_password" ;;
  args <- (if truthy password then ret args
           else
             let args' := setattr args "neo4j_password" (env_password w) in
             password' <- attr args' "neo4j_password" ;;
             if truthy password' then ret args' else sys_exit 1) ;;
  (* lines 333-344 *)
  input_path <- attr args "input_path" ;;
  when (negb (path_exists w (text_of input_path))) (sys_exit 1) ;;;
  input_path <- attr args "input_path" ;;
  when (negb (path_isdir w (text_of input_path))
        && negb (path_isfile w (text_of input_path))) (sys_exit 1) ;;;
  password <- attr args "neo4j_password" ;;
  when (negb (truthy password)) (sys_exit 1) ;;;
  url <- attr args "neo4j_url" ;;
  when (negb (truthy url)) (sys_exit 1) ;;;
  (* lines 349-358 *)
  output_dir <- attr args "output_dir" ;;
  let abs_output_dir := abspath w (text_of output_dir) in
  let cpg_file_path := path_join abs_output_dir (str "cpg.bin") in
  let csv_export_dir := path_join abs_output_dir (str "neo4j_csv") in
  let output_dir_path := parse_path csv_export_dir in
  (* lines 361-364 *)
  enter PhaseParse ;;;
  input_path <- attr args "input_path" ;;
  jvm_mem <- attr args "jvm_mem" ;;
  match run_joern_parse (text_of input_path) cpg_file_path (text_of jvm_mem) with
  | None => sys_exit 1
  | Some cpg_path =>
      (* lines 368-379 *)
      enter PhaseExport ;;;
      when (path_exists w csv_export_dir && negb (rmtree_ok w)) (sys_exit 1) ;;;
      match run_joern_export cpg_path csv_export_dir (text_of jvm_mem) with
      | None => sys_exit 1
      | Some _ =>
          (* lines 382-400 *)
          enter PhaseCopy ;;;
          when (negb (copy_ok w)) (sys_exit 1) ;;;
          (* lines 410-457 *)
          import_successful <- import_phase args output_dir_path ;;
          if import_successful then sys_exit 0 else sys_exit 1
      end
  end.

(** The run of the program: how it ends and which phases it entered. *)
Definition main (c : cli) : termination * list phase :=
  match main_body c [] with
  | (inl _, t) => (SysExit 0, t)
  | (inr e, t) => (e, t)
  end.
End Main.

(* ================================================================== *)
(** * Reading a trace *)

Definition event_path (e : event) : Path :=
  match e with
  | Visit p => p
  | Run p _ => p
  end.

(** The files the loop visited, in order. *)
Definition visited (t : list event) : list Path :=
  flat_map (fun e => match e with Visit p => [p] | Run _ _ => [] end) t.

(** The data file a match refers to (line 202). *)
Definition data_file_of (cypher_file_path : Path) (m : re_match) : Path :=
  joinpath (parent cypher_file_path) (name (parse_path (group m 2))).

(** The order in which [sorted] leaves two paths. *)
Definition path_le (a b : Path) : Prop := path_leb a b = true.

(** The two naming conventions of line 115 and line 117. *)
Definition node_pattern : text := str "nodes_*_cypher.csv".
Definition edge_pattern : text := str "edges_*_cypher.csv".

(* ================================================================== *)
(** * Sample inputs *)

Definition lines (ls : list string) : text :=
  flat_map (fun l => str l ++ [newline]) ls.

Definition sample_dir : Path := [str "neo4j_csv"].
Definition nodes_a : Path := sample_dir ++ [str "nodes_a_cypher.csv"].
Definition nodes_b : Path := sample_dir ++ [str "nodes_b_cypher.csv"].
Definition edges_x : Path := sample_dir ++ [str "edges_x_cypher.csv"].

Fixpoint path_eqb (a b : Path) : bool :=
  match a, b with
  | [], [] => true
  | x :: a', y :: b' => text_eqb x y && path_eqb a' b'
  | _, _ => false
  end.

(** A well-formed script as Joern writes it. *)
Definition good_script : text :=
  lines ["LOAD CSV FROM 'file:/nodes_a_data.csv' AS line"%string;
         "CREATE (:METHOD {id: toInteger(line[0])});"%string].

(** A script without a LOAD CSV clause. *)
Definition malformed_script : text := lines ["MATCH (n) RETURN n;"%string].

(** A script whose body has no final semicolon. *)
Definition unterminated_script : text :=
  lines ["LOAD CSV FROM 'file:/nodes_a_data.csv' AS line"%string]
  ++ str "CREATE (:METHOD {id: toInteger(line[0])})".

(** A script with nothing after the clause. *)
Definition bodyless_script : text :=
  lines ["LOAD CSV FROM 'file:/nodes_a_data.csv' AS line"%string].

(** A script whose data file has a backslash and octal digits in its name. *)
Definition octal_script : text :=
  lines ["LOAD CSV FROM 'file:/a\047.csv' AS line"%string; "CREATE (n);"%string].

(** A directory with three import scripts, listed in no particular order,
    and the data files; [nodes_a_cypher.csv] is malformed. *)
Definition sample_fs : filesystem :=
  mk_fs
    (fun p =>
       if path_eqb p sample_dir then
         Directory [str "nodes_b_cypher.csv"; str "edges_x_cypher.csv";
                    str "nodes_a_data.csv"; str "nodes_a_cypher.csv";
                    str "a\047.csv"]
       else if path_eqb p (sample_dir ++ [str "nodes_a_data.csv"]) then Regular
       else if path_eqb p (sample_dir ++ [str "a\047.csv"]) then Regular
       else if path_eqb p nodes_a then Regular
       else if path_eqb p nodes_b then Regular
       else if path_eqb p edges_x then Regular
       else Missing)
    (fun p =>
       if path_eqb p nodes_a then ReadOk malformed_script
       else if path_eqb p nodes_b then ReadOk good_script
       else if path_eqb p edges_x then ReadOk good_script
       else ReadNotFound).

(** A directory that holds three import scripts and nothing else. *)
Definition three_scripts_fs : filesystem :=
  mk_fs
    (fun p =>
       if path_eqb p sample_dir then
         Directory [str "nodes_b_cypher.csv"; str "edges_x_cypher.csv";
                    str "nodes_a_cypher.csv"]
       else Missing)
    (fun _ => ReadNotFound).

(** The same directory without the data files. *)
Definition sample_fs_no_data : filesystem :=
  mk_fs
    (fun p => if path_eqb p sample_dir then stat sample_fs p else Missing)
    (read_text sample_fs).

(** A database that records the queries it ran and accepts all of them. *)
Definition recording_driver : driver (list text) :=
  mk_driver (fun _ query db => (RunOk, db ++ [query])).

(* ================================================================== *)
(** * Further definitions: orders, traces, commands and hints *)

(** The order of Python strings. *)
Definition text_le (a b : text) : Prop := text_compare a b <> Gt.

Definition no_star (s : text) : bool :=
  forallb (fun c => negb (Ascii.eqb c "*")) s.

Definition no_slash (s : text) : bool :=
  forallb (fun c => negb (Ascii.eqb c slash)) s.

(** The queries of a trace, in the order in which they were sent. *)
Definition queries (t : list event) : list text :=
  flat_map (fun e => match e with Visit _ => [] | Run _ q => [q] end) t.

(** The database after a list of queries, whatever their outcomes. *)
Definition run_queries (DB : Type) (drv : driver DB) (database_name : text)
    (qs : list text) (db : DB) : DB :=
  fold_left (fun d q => snd (session_run drv database_name q d)) qs db.

(** What the trace must say about one event: a visit is of a listed file, a
    query is the rewritten text of the listed file it is attributed to. *)
Definition event_justified (fs : filesystem) (files : list Path) (e : event)
  : Prop :=
  match e with
  | Visit p => In p files
  | Run p q =>
      In p files
      /\ exists content,
           read_text fs p = ReadOk content
           /\ is_nil (strip content) = false
           /\ rewrite fs p content = Rewritten q
  end.

(** What [subprocess.run(command, check=True, capture_output=True, ...)]
    does at line 30. *)
Inductive process_outcome : Type :=
| Completed (returncode : Z) (stdout stderr : text)
| ProgramNotFound                    (* FileNotFoundError *)
| ProcessError (message : text).     (* any other exception [e], [str(e)] *)

(** [run_command] (lines 26-60) on the outcome of the process: the success
    flag and the output it returns.  [shown] is the text that
    [f"{command}"] gives for the command.  (The record [world] has a field
    of the name [run_command] for the success flag alone.) *)
Definition run_command_result (o : process_outcome) (shown : text)
  : bool * text :=
  match o with
  | Completed returncode stdout stderr =>
      if Z.eqb returncode 0 then (true, stdout)
      else
        let stderr_output :=
          if is_nil stderr then str "N/A" else strip stderr in
        (false, stderr_output)
  | ProgramNotFound => (false, str "Command not found: " ++ shown)
  | ProcessError message => (false, message)
  end.

(** [s.lower()] below code point 256. *)
Definition py_lower (c : ascii) : ascii :=
  if in_range 65 90 c || (in_range 192 222 c && negb (is_code 215 c))
  then ascii_of_N (code c + 32)
  else c.

Fixpoint starts_with (a s : text) : bool :=
  match a, s with
  | [], _ => true
  | x :: a', y :: s' => Ascii.eqb x y && starts_with a' s'
  | _ :: _, [] => false
  end.

(** [a in s] for texts. *)
Fixpoint contains (a s : text) : bool :=
  starts_with a s
  || match s with
     | [] => false
     | _ :: s' => contains a s'
     end.

(** The hint logged for a ClientError (lines 270-278). *)
Inductive hint : Type :=
| HintConstraint | HintApoc | HintFileAccess | HintTransaction.

Definition client_error_hint (message : text) : option hint :=
  let m := map py_lower message in
  if contains (str "constraint") m then Some HintConstraint
  else if contains (str "apoc") m then Some HintApoc
  else if contains (str "file access") m
          || contains (str "couldn't load file") m
          || contains (str "directory not configured") m
  then Some HintFileAccess
  else if contains (str "transaction") m then Some HintTransaction
  else None.

(** A directory listed in another order. *)
Definition sample_fs_reordered : filesystem :=
  mk_fs
    (fun p =>
       if path_eqb p sample_dir then
         Directory [str "nodes_a_cypher.csv"; str "a\047.csv";
                    str "edges_x_cypher.csv"; str "nodes_a_data.csv";
                    str "nodes_b_cypher.csv"]
       else stat sample_fs p)
    (read_text sample_fs).

(** A script of blanks only, and a directory where every script is such. *)
Definition blank_script : text := str "  " ++ [newline; "009"%char; newline].

Definition blank_fs : filesystem :=
  mk_fs (stat sample_fs) (fun _ => ReadOk blank_script).

(** What the loop keeps true of its state, [db1] being the database after
    the constraint query and [files] the files listed. *)
Definition loop_invariant (DB : Type) (drv : driver DB) (database_name : text)
    (fs : filesystem) (db1 : DB) (files : list Path) (st : loop_state DB)
  : Prop :=
  Forall (event_justified fs files) (trace st)
  /\ database st = run_queries drv database_name (queries (trace st)) db1
  /\ processed_files st <= length (queries (trace st))
  /\ length (queries (trace st)) <= length (visited (trace st))
  /\ (import_errors st = true
      \/ processed_files st = length (queries (trace st))).

(** A match whose file reference has directories in it. *)
Definition nested_reference : re_match :=
  mk_match 0 [] (clause_caps [] (str "sub/dir/x.csv") [] []).

(** A world in which the export left the three scripts and the database
    cannot be reached, and one in which the export directory is empty. *)
Definition sample_world : world (list text) :=
  mk_world (fun _ => true) (fun _ => true) (fun _ => false) None
           (fun s => s) (fun _ => true) true true three_scripts_fs None.

Definition empty_export_world : world (list text) :=
  mk_world (fun _ => true) (fun _ => true) (fun _ => false) None
           (fun s => s) (fun _ => true) true true
           (mk_fs (fun _ => Directory [str "cpg.bin"; str "nodes_a_data.csv"])
                  (fun _ => ReadNotFound))
           None.

Definition sample_cli : cli :=
  mk_cli (str "./src") (str "joern_neo4j_output") DEFAULT_JVM_MEM
         (str "bolt://localhost:7687") (str "neo4j") (Some (str "secret"))
         (str "neo4j") (str "joern_neo4j_import").

(** The files whose query was sent to the database, in order. *)
Definition executed (t : list event) : list Path :=
  flat_map (fun e => match e with Visit _ => [] | Run p _ => [p] end) t.

(** What becomes of one script in the loop at line 178, told without the
    two variables [import_errors] and [processed_files] of the loop. *)
Inductive script_outcome : Type :=
| ScriptSkipped      (* blank text (line 183) or no body (line 232): a
                        warning, no error *)
| ScriptError        (* an error is logged for the script: lines 190, 204,
                        224, 266, 269, 281 *)
| ScriptProcessed.   (* its query ran to the end: line 256 *)

(** The outcome of the script at [p] when the database is [db], and the
    database it leaves. *)
Definition script_outcome_of (DB : Type) (drv : driver DB)
    (database_name : text) (fs : filesystem) (p : Path) (db : DB)
  : script_outcome * DB :=
  match read_text fs p with
  | ReadNotFound => (ScriptError, db)
  | ReadFailed => (ScriptError, db)
  | ReadOk cypher_content =>
      if is_nil (strip cypher_content) then (ScriptSkipped, db)
      else
        match rewrite fs p cypher_content with
        | EmptyBody => (ScriptSkipped, db)
        | Rewritten batched_cypher =>
            match session_run drv database_name batched_cypher db with
            | (RunOk, db') => (ScriptProcessed, db')
            | (RunClientError _, db') => (ScriptError, db')
            | (RunException, db') => (ScriptError, db')
            end
        | _ => (ScriptError, db)
        end
  end.

(** The outcomes of the scripts of a list, taken one after the other, each
    on the database that the scripts before it left. *)
Fixpoint script_outcomes (DB : Type) (drv : driver DB) (database_name : text)
    (fs : filesystem) (files : list Path) (db : DB) : list script_outcome :=
  match files with
  | [] => []
  | p :: files' =>
      fst (script_outcome_of drv database_name fs p db)
      :: script_outcomes drv database_name fs files'
           (snd (script_outcome_of drv database_name fs p db))
  end.

Definition is_error (o : script_outcome) : bool :=
  match o with ScriptError => true | _ => false end.

Definition is_processed (o : script_outcome) : bool :=
  match o with ScriptProcessed => true | _ => false end.

(** A script that is a LOAD CSV clause and nothing more: no body, no final
    newline, no terminator. *)
Definition clause_only_script : text :=
  str "LOAD CSV FROM 'file:/nodes_a_data.csv' AS l".

(* ================================================================== *)
(** * Properties of [main] *)

(** C3. The statement of the specification fails on the code: line 342 reads
    [args.neo4j_url], an attribute that [parse_args] never creates (the
    option is [--neo4j-uri]).  Every run that gets past [parse_args]
    therefore ends with exit status 1 and without entering the parse phase:
    either an earlier validation calls [sys.exit(1)], or the AttributeError
    of line 342 ends the program. *)
Theorem main_never_reaches_parse : forall (DB : Type) (w : world DB) (c : cli),
  exit_status (fst (main w c)) = 1%N /\ snd (main w c) = [].
Proof.
  intros DB w c. unfold main, main_body.
  destruct c as [ip od jm uri usr pw dbn imp].
  cbv [parse_args cli_input_path cli_output_dir cli_jvm_mem cli_neo4j_uri
       cli_neo4j_user cli_neo4j_password cli_neo4j_database
       cli_neo4j_import_dir bind ret attr when sys_exit raise
       getattr setattr String.eqb Ascii.eqb Bool.eqb text_of].
  destruct (truthy pw) eqn:Hpw.
  - destruct (path_exists w ip); cbn; [|split; reflexivity].
    destruct (path_isdir w ip), (path_isfile w ip); cbn;
      rewrite ?Hpw; cbn; split; reflexivity.
  - destruct (truthy (env_password w)) eqn:Henv; cbn; [|split; reflexivity].
    destruct (path_exists w ip); cbn; [|split; reflexivity].
    destruct (path_isdir w ip), (path_isfile w ip); cbn;
      rewrite ?Henv; cbn; split; reflexivity.
Qed.

(** With a valid input path and a password present, [main] ends in the
    uncaught AttributeError, before any phase. *)
Lemma main_valid_arguments_raise : forall (DB : Type) (w : world DB) (c : cli),
  path_exists w (cli_input_path c) = true ->
  path_isdir w (cli_input_path c) || path_isfile w (cli_input_path c) = true ->
  truthy (cli_neo4j_password c) = true ->
  main w c = (Uncaught (AttributeError "neo4j_url"), []).
Proof.
  intros DB w c Hex Hk Hpw. unfold main, main_body.
  destruct c as [ip od jm uri usr pw dbn imp]. simpl in Hex, Hk, Hpw.
  cbv [parse_args cli_input_path cli_output_dir cli_jvm_mem cli_neo4j_uri
       cli_neo4j_user cli_neo4j_password cli_neo4j_database
       cli_neo4j_import_dir bind ret attr when sys_exit raise
       getattr setattr String.eqb Ascii.eqb Bool.eqb text_of].
  rewrite Hpw, Hex. cbn.
  destruct (path_isdir w ip), (path_isfile w ip); try discriminate;
    cbn; rewrite Hpw; reflexivity.
Qed.

(* ================================================================== *)
(** * Properties of the import driver *)

Section DriverFacts.
Variable DB : Type.
Variable drv : driver DB.
Variable database_name : text.
Variable fs : filesystem.

(** One turn of the loop leaves the database that the script's outcome
    says, sets the error flag exactly on an error and counts exactly a
    processed script. *)
Lemma process_file_outcome : forall (st : loop_state DB) (p : Path),
  database (process_file drv database_name fs st p)
  = snd (script_outcome_of drv database_name fs p (database st))
  /\ import_errors (process_file drv database_name fs st p)
     = import_errors st
       || is_error (fst (script_outcome_of drv database_name fs p (database st)))
  /\ processed_files (process_file drv database_name fs st p)
     = processed_files st
       + (if is_processed
               (fst (script_outcome_of drv database_name fs p (database st)))
          then 1 else 0).
Proof.
  intros st p. unfold process_file, script_outcome_of.
  destruct (read_text fs p) as [content| |]; simpl;
    try (rewrite orb_true_r, Nat.add_0_r; auto).
  destruct (is_nil (strip content)); simpl;
    [rewrite orb_false_r, Nat.add_0_r; auto|].
  destruct (rewrite fs p content) as [| | | | |q]; simpl;
    try (rewrite orb_true_r, Nat.add_0_r; auto);
    try (rewrite orb_false_r, Nat.add_0_r; auto).
  unfold execute. simpl.
  destruct (session_run drv database_name q (database st)) as [[|msg|] db'];
    simpl;
    try (rewrite orb_true_r, Nat.add_0_r; auto).
  rewrite orb_false_r, Nat.add_1_r. auto.
Qed.

(** The two variables of the loop, after a list of files, in terms of the
    outcomes of the scripts. *)
Lemma process_files_outcomes : forall (files : list Path) (st : loop_state DB),
  import_errors (process_files drv database_name fs files st)
  = import_errors st
    || existsb is_error
         (script_outcomes drv database_name fs files (database st))
  /\ processed_files (process_files drv database_name fs files st)
     = processed_files st
       + length (filter is_processed
                   (script_outcomes drv database_name fs files (database st))).
Proof.
  unfold process_files.
  induction files as [|p files IH]; intros st; simpl.
  - rewrite orb_false_r, Nat.add_0_r. auto.
  - destruct (process_file_outcome st p) as (HD & HE & HP).
    destruct (IH (process_file drv database_name fs st p)) as (IE & IP).
    rewrite IE, IP, HD, HE, HP. split.
    + now rewrite orb_assoc.
    + destruct (is_processed
                  (fst (script_outcome_of drv database_name fs p (database st))));
        simpl; lia.
Qed.

Lemma exists_error : forall os : list script_outcome,
  existsb is_error os = true <-> In ScriptError os.
Proof.
  intros os. rewrite existsb_exists. split.
  - intros ([| |] & Hin & Ho); try discriminate. exact Hin.
  - intros Hin. exists ScriptError. now split.
Qed.

Lemma none_processed : forall os : list script_outcome,
  length (filter is_processed os) = 0 <-> ~ In ScriptProcessed os.
Proof.
  induction os as [|o os IH]; simpl.
  - split; [intros _ [] | reflexivity].
  - destruct o; simpl; rewrite ?IH; split; intros H;
      try discriminate; try tauto;
      try (intros [E | Hin]; [discriminate | tauto]).
Qed.

Lemma some_processed : forall os : list script_outcome,
  length (filter is_processed os) <> 0 -> In ScriptProcessed os.
Proof.
  induction os as [|o os IH]; simpl; [intros H; now elim H|].
  destruct o; simpl; intros H; auto.
Qed.

(** C4. The import returns true exactly when no script ended in an error
    and either one script at least was processed (its query ran to the
    end) or there were no scripts at all; with scripts and none of them
    processed it returns false, also when none ended in an error.  The
    outcomes are those of the scripts themselves, node files first, each
    on the database as the scripts before it left it. *)
Theorem import_verdict_iff : forall (db : DB) (nodes edges : list Path),
  let outcomes :=
    script_outcomes drv database_name fs (nodes ++ edges)
      (snd (session_run drv database_name constraint_query db)) in
  (import_online_neo4j drv database_name fs db nodes edges = true <->
     ~ In ScriptError outcomes
     /\ (In ScriptProcessed outcomes \/ (nodes = [] /\ edges = [])))
  /\ (nodes ++ edges <> [] -> ~ In ScriptProcessed outcomes ->
      import_online_neo4j drv database_name fs db nodes edges = false).
Proof.
  intros db nodes edges outcomes.
  unfold import_online_neo4j, import_verdict, import_loop.
  set (db1 := snd (session_run drv database_name constraint_query db)) in *.
  destruct (process_files_outcomes (nodes ++ edges) (mk_state false 0 db1 []))
    as (HE & HP).
  cbn [import_errors processed_files database orb Nat.add] in HE, HP.
  fold outcomes in HE, HP. rewrite HE, HP.
  pose proof (exists_error outcomes) as XE.
  pose proof (none_processed outcomes) as XP.
  assert (Hempty : is_nil nodes && is_nil edges = true
                   <-> nodes = [] /\ edges = []).
  { destruct nodes, edges; simpl; split; intros H; try discriminate;
      try (destruct H; discriminate); auto. }
  assert (Hne : nodes ++ edges <> [] -> is_nil nodes && is_nil edges = false).
  { destruct nodes, edges; simpl; auto. intros H. now elim H. }
  split.
  - destruct (existsb is_error outcomes) eqn:EE.
    + split; [discriminate|]. intros [H _]. elim H. now apply XE.
    + assert (NE : ~ In ScriptError outcomes).
      { intros H. apply XE in H. discriminate. }
      destruct (length (filter is_processed outcomes)) as [|n] eqn:EL; simpl.
      * assert (NP : ~ In ScriptProcessed outcomes) by now apply XP.
        destruct (is_nil nodes && is_nil edges) eqn:EN; simpl.
        -- split; [|reflexivity]. intros _. split; [exact NE|].
           right. now apply Hempty.
        -- split; [discriminate|]. intros [_ [H | H]]; [now elim NP|].
           apply Hempty in H. discriminate.
      * split; [|reflexivity]. intros _. split; [exact NE|]. left.
        apply some_processed. rewrite EL. discriminate.
  - intros Hfiles Hnone. apply XP in Hnone. rewrite Hnone, (Hne Hfiles).
    simpl. destruct (existsb is_error outcomes); reflexivity.
Qed.
End DriverFacts.

Section DriverTrace.
Variable DB : Type.
Variable drv : driver DB.
Variable database_name : text.
Variable fs : filesystem.

Lemma visited_app : forall t1 t2, visited (t1 ++ t2) = visited t1 ++ visited t2.
Proof. intros. unfold visited. apply flat_map_app. Qed.

(** One iteration appends a visit of its file and at most one run of it. *)
Lemma process_file_trace : forall (st : loop_state DB) (p : Path),
  exists evs,
    trace (process_file drv database_name fs st p) = trace st ++ Visit p :: evs
    /\ visited evs = []
    /\ Forall (fun e => event_path e = p) evs.
Proof.
  intros st p. unfold process_file.
  destruct (read_text fs p) as [content| |];
    try (exists []; simpl; repeat split; constructor).
  destruct (is_nil (strip content));
    [exists []; simpl; repeat split; constructor|].
  destruct (rewrite fs p content) as [| | | | |q];
    try (exists []; simpl; repeat split; constructor).
  exists [Run p q]. unfold execute. simpl.
  destruct (session_run drv database_name q (database st)) as [[|msg|] db'];
    simpl; rewrite <- app_assoc; repeat split; repeat constructor.
Qed.

Lemma fold_process_trace : forall (files : list Path) (st : loop_state DB),
  exists t,
    trace (process_files drv database_name fs files st) = trace st ++ t
    /\ visited t = files
    /\ Forall (fun e => In (event_path e) files) t.
Proof.
  unfold process_files.
  induction files as [|p files IH]; intros st; simpl.
  - exists []. rewrite app_nil_r. repeat split. constructor.
  - destruct (process_file_trace st p) as (evs & Ht & Hv & Hp).
    destruct (IH (process_file drv database_name fs st p)) as (t & Ht' & Hv' & Hp').
    exists (Visit p :: evs ++ t). rewrite Ht', Ht, <- app_assoc. simpl.
    split; [reflexivity|]. split.
    + rewrite visited_app, Hv, Hv'. reflexivity.
    + constructor; [now left|]. apply Forall_app. split.
      * eapply Forall_impl; [|exact Hp]. intros e He. now left.
      * eapply Forall_impl; [|exact Hp']. intros e He. now right.
Qed.

(** C8. The loop visits exactly the node files followed by the edge files,
    and its trace splits in two: every event of the first part (visit or
    run) is about a node file, every event of the second part about an
    edge file, so that no edge script runs before all node scripts have
    been visited. *)
Theorem node_files_before_edge_files :
  forall (db : DB) (nodes edges : list Path),
    let st := import_loop drv database_name fs db nodes edges in
    visited (trace st) = nodes ++ edges
    /\ exists tn te,
         trace st = tn ++ te
         /\ visited tn = nodes /\ visited te = edges
         /\ Forall (fun e => In (event_path e) nodes) tn
         /\ Forall (fun e => In (event_path e) edges) te.
Proof.
  intros db nodes edges st. subst st. unfold import_loop.
  set (st0 := mk_state false 0 _ []).
  replace (process_files drv database_name fs (nodes ++ edges) st0)
    with (process_files drv database_name fs edges
            (process_files drv database_name fs nodes st0))
    by (unfold process_files; now rewrite fold_left_app).
  destruct (fold_process_trace nodes st0) as (tn & Hn & Hvn & Hpn).
  destruct (fold_process_trace edges (process_files drv database_name fs nodes st0))
    as (te & He & Hve & Hpe).
  rewrite He, Hn. simpl. split.
  - rewrite visited_app, Hvn, Hve. reflexivity.
  - exists tn, te. repeat split; assumption.
Qed.

(** C5. A script on which the rewrite step fails with MalformedScript or
    DataFileMissing sets the error flag and the loop goes on with the
    files that follow; with two scripts, one failing in this way and the
    other one executed successfully, in either order and however they are
    divided between node and edge files, the import returns false and the
    processed count is 1. *)
Theorem failed_rewrite_is_recorded_and_skipped :
  forall (db db' : DB) (bad good : Path) (cbad cgood q : text),
    read_text fs bad = ReadOk cbad ->
    is_nil (strip cbad) = false ->
    rewrite fs bad cbad = MalformedScript
      \/ rewrite fs bad cbad = DataFileMissing ->
    read_text fs good = ReadOk cgood ->
    is_nil (strip cgood) = false ->
    rewrite fs good cgood = Rewritten q ->
    session_run drv database_name q
      (snd (session_run drv database_name constraint_query db)) = (RunOk, db') ->
    (forall (st : loop_state DB) (rest : list Path),
        process_files drv database_name fs (bad :: rest) st
        = process_files drv database_name fs rest (set_error (log_event (Visit bad) st)))
    /\ forall nodes edges,
        nodes ++ edges = [bad; good] \/ nodes ++ edges = [good; bad] ->
        import_online_neo4j drv database_name fs db nodes edges = false
        /\ processed_files (import_loop drv database_name fs db nodes edges) = 1.
Proof.
  intros db db' bad good cbad cgood q Hrb Hnb Hbad Hrg Hng Hgood Hrun.
  assert (Hstep_bad : forall st,
             process_file drv database_name fs st bad = set_error (log_event (Visit bad) st)).
  { intros st. unfold process_file. rewrite Hrb, Hnb.
    destruct Hbad as [-> | ->]; reflexivity. }
  assert (Hstep_good : forall st,
             database st
             = snd (session_run drv database_name constraint_query db) ->
             process_file drv database_name fs st good
             = mk_state (import_errors st) (S (processed_files st)) db'
                 ((trace st ++ [Visit good]) ++ [Run good q])).
  { intros st Hdb. unfold process_file. rewrite Hrg, Hng, Hgood.
    unfold execute. simpl. rewrite Hdb, Hrun. reflexivity. }
  split.
  - intros st rest. unfold process_files. simpl. rewrite Hstep_bad.
    reflexivity.
  - intros nodes edges Hor.
    unfold import_online_neo4j, import_verdict, import_loop, process_files.
    destruct Hor as [-> | ->]; simpl.
    + rewrite Hstep_bad, Hstep_good by reflexivity. simpl. split; reflexivity.
    + rewrite Hstep_good, Hstep_bad by reflexivity. simpl. split; reflexivity.
Qed.
End DriverTrace.

Lemma failed_rewrite_witness :
  import_online_neo4j recording_driver (str "neo4j") sample_fs []
    [nodes_a] [edges_x] = false
  /\ processed_files
       (import_loop recording_driver (str "neo4j") sample_fs []
          [nodes_a] [edges_x]) = 1.
Proof.
  refine (proj2 (@failed_rewrite_is_recorded_and_skipped
                   (list text) recording_driver (str "neo4j") sample_fs
                   [] _ nodes_a edges_x malformed_script good_script _
                   _ _ _ _ _ _ _) [nodes_a] [edges_x] _).
  - vm_compute. reflexivity.
  - vm_compute. reflexivity.
  - left. vm_compute. reflexivity.
  - vm_compute. reflexivity.
  - vm_compute. reflexivity.
  - vm_compute. reflexivity.
  - vm_compute. reflexivity.
  - left. reflexivity.
Defined.

(* ================================================================== *)
(** * Properties of file discovery *)

Section LexFacts.
Variable A : Type.
Variable cmp : A -> A -> comparison.
Hypothesis cmp_antisym : forall x y, cmp y x = CompOpp (cmp x y).

Lemma lex_compare_antisym : forall a b : list A,
  lex_compare cmp b a = CompOpp (lex_compare cmp a b).
Proof.
  induction a as [|x a IH]; destruct b as [|y b]; simpl; try reflexivity.
  rewrite (cmp_antisym x y).
  destruct (cmp x y); simpl; [apply IH | reflexivity | reflexivity].
Qed.
End LexFacts.

Lemma char_compare_antisym : forall x y,
  char_compare y x = CompOpp (char_compare x y).
Proof. intros. unfold char_compare. apply N.compare_antisym. Qed.

Lemma path_compare_antisym : forall a b,
  path_compare b a = CompOpp (path_compare a b).
Proof.
  apply lex_compare_antisym. apply lex_compare_antisym.
  exact char_compare_antisym.
Qed.

Lemma path_leb_total : forall a b, path_leb a b = false -> path_leb b a = true.
Proof.
  intros a b. unfold path_leb. rewrite (path_compare_antisym a b).
  destruct (path_compare a b); simpl; congruence.
Qed.

Lemma insert_sorted_perm : forall x l, Permutation (x :: l) (insert_sorted x l).
Proof.
  induction l as [|y l IH]; simpl.
  - apply Permutation_refl.
  - destruct (path_leb x y).
    + apply Permutation_refl.
    + eapply perm_trans; [apply perm_swap|]. now apply perm_skip.
Qed.

Lemma sorted_perm : forall l, Permutation l (sorted l).
Proof.
  induction l as [|x l IH]; simpl.
  - constructor.
  - eapply perm_trans; [apply perm_skip, IH | apply insert_sorted_perm].
Qed.

Lemma insert_sorted_hd : forall x y l,
  path_le y x -> HdRel path_le y l -> HdRel path_le y (insert_sorted x l).
Proof.
  intros x y l Hyx Hhd. destruct l as [|z l]; simpl.
  - now constructor.
  - inversion Hhd; subst. destruct (path_leb x z); now constructor.
Qed.

Lemma insert_sorted_sorted : forall x l,
  Sorted path_le l -> Sorted path_le (insert_sorted x l).
Proof.
  induction l as [|y l IH]; intros Hs; simpl.
  - repeat constructor.
  - inversion Hs as [|? ? Hl Hhd]; subst.
    destruct (path_leb x y) eqn:Hxy.
    + constructor; [assumption | now constructor].
    + constructor; [now apply IH|].
      apply insert_sorted_hd; [now apply path_leb_total | assumption].
Qed.

Lemma sorted_is_sorted : forall l, Sorted path_le (sorted l).
Proof.
  induction l as [|x l IH]; simpl.
  - constructor.
  - now apply insert_sorted_sorted.
Qed.

(** C7. Discovery raises FileNotFoundError exactly when the path is missing
    or is not a directory.  On a directory it returns the entries that match
    [nodes_*_cypher.csv] and those that match [edges_*_cypher.csv], each list
    in ascending path order; the directory of the example yields
    [nodes_a_cypher.csv; nodes_b_cypher.csv] and [edges_x_cypher.csv]. *)
Theorem get_cypher_files_discovers : forall (fs : filesystem) (d : Path),
  (get_cypher_files fs d = inl FileNotFoundError
     <-> (stat fs d = Missing \/ stat fs d = Regular))
  /\ (forall entries, stat fs d = Directory entries ->
        exists ns es,
          get_cypher_files fs d = inr (ns, es)
          /\ Sorted path_le ns /\ Sorted path_le es
          /\ Permutation ns
               (map (fun n => d ++ [n]) (filter (glob_match node_pattern) entries))
          /\ Permutation es
               (map (fun n => d ++ [n]) (filter (glob_match edge_pattern) entries)))
  /\ get_cypher_files three_scripts_fs sample_dir
     = inr ([nodes_a; nodes_b], [edges_x]).
Proof.
  intros fs d. split; [|split].
  - unfold get_cypher_files, is_dir.
    destruct (stat fs d) as [| |entries]; simpl; split; intros H;
      try reflexivity; try discriminate; auto.
    destruct H; discriminate.
  - intros entries Hst. unfold get_cypher_files, is_dir, glob. rewrite Hst. simpl.
    eexists. eexists. split; [reflexivity|].
    repeat split; try apply sorted_is_sorted;
      apply Permutation_sym, sorted_perm.
  - vm_compute. reflexivity.
Qed.

(* ================================================================== *)
(** * Properties of the rewrite step that follow from its case analysis *)

(** C6. The statement of the specification fails on the code: line 188
    searches [cypher_content[0:-1]], the text without its last character,
    whether or not that character is a terminator.  This script is a LOAD
    CSV clause with nothing after it: the pattern is found in its text, at
    offset 0 and over the whole of it, the last character is the variable
    of the clause and not a terminator, and the rewrite step answers
    MalformedScript, when the data file is there as well as when it is not
    (where DataFileMissing is expected). *)
Theorem rewrite_misses_final_clause :
  search pattern_load_csv clause_only_script
  = Some (mk_match 0 clause_only_script
            (clause_caps (str "LOAD CSV FROM ") (str "nodes_a_data.csv")
                         (str " AS l") (str "l")))
  /\ last clause_only_script newline = "l"%char
  /\ search pattern_load_csv (drop_last clause_only_script) = None
  /\ is_file sample_fs (sample_dir ++ [str "nodes_a_data.csv"]) = true
  /\ rewrite sample_fs nodes_b clause_only_script = MalformedScript
  /\ is_file sample_fs_no_data (sample_dir ++ [str "nodes_a_data.csv"]) = false
  /\ rewrite sample_fs_no_data nodes_b clause_only_script = MalformedScript.
Proof. repeat split; vm_compute; reflexivity. Qed.

(** The claim C9 as stated (the output depends on the script text and the
    presence of the data file only) fails: two scripts of one directory with
    the same text are rewritten differently, since the query ends with the
    name of its script. *)
Lemma rewrite_depends_on_script_name :
  parent nodes_a = parent nodes_b
  /\ rewrite sample_fs nodes_a good_script
     <> rewrite sample_fs nodes_b good_script.
Proof.
  split; [reflexivity|]. vm_compute. intro H.
  apply (f_equal (fun r => match r with
                           | Rewritten q => nth 12 (rev q) "000"%char
                           | _ => "000"%char
                           end)) in H.
  vm_compute in H. discriminate H.
Qed.

(** C9, amended. For a given script file (its path and its text) the result
    of the rewrite step is the same in any two states of the file system
    that agree on whether the data file the script refers to is a file: it
    depends on the script's name, its text and the presence of that file,
    and on nothing else. *)
Theorem rewrite_deterministic :
  forall (fs1 fs2 : filesystem) (p : Path) (content : text),
    (forall m, search pattern_load_csv (drop_last content) = Some m ->
               is_file fs1 (data_file_of p m) = is_file fs2 (data_file_of p m)) ->
    rewrite fs1 p content = rewrite fs2 p content.
Proof.
  intros fs1 fs2 p content H. unfold rewrite. cbv zeta.
  destruct (search pattern_load_csv (drop_last content)) as [m|]; [|reflexivity].
  specialize (H m eq_refl). fold (data_file_of p m). rewrite H.
  reflexivity.
Qed.

Lemma rewrite_deterministic_witness :
  rewrite sample_fs nodes_b good_script
  = rewrite (mk_fs (stat sample_fs) (fun _ => ReadFailed)) nodes_b good_script.
Proof.
  apply rewrite_deterministic.
  intros m Hm. reflexivity.
Defined.

Example data_file_missing_example :
  rewrite sample_fs_no_data nodes_b good_script = DataFileMissing.
Proof. vm_compute. reflexivity. Qed.

(** C2 fails on the code: line 242 drops the last character of the body
    whatever it is.  The body of this script ends with a closing
    parenthesis and no semicolon, and the parenthesis is lost. *)
Theorem rewrite_drops_last_body_character :
  rewrite sample_fs nodes_b unterminated_script
  = Rewritten
      (lines ["LOAD CSV FROM 'file:///nodes_a_data.csv' AS line"%string;
              "CALL {"%string;
              "    WITH line"%string;
              "    CREATE (:METHOD {id: toInteger(line[0])}"%string;
              "} IN TRANSACTIONS OF 1000 ROWS"%string]
       ++ str "RETURN 'Batch processed from nodes_b_cypher.csv'").
Proof. vm_compute. reflexivity. Qed.

(** The claim C1 as stated fails: this script has exactly one LOAD CSV
    clause, at offset 0, its data file exists, and no query is produced,
    because nothing but a newline follows the clause (line 232). *)
Lemma rewrite_without_body :
  search pattern_load_csv bodyless_script
  = Some (mk_match 0 (str "LOAD CSV FROM 'file:/nodes_a_data.csv' AS line")
            (clause_caps (str "LOAD CSV FROM ") (str "nodes_a_data.csv")
                         (str " AS line") (str "line")))
  /\ no_match_except pattern_load_csv bodyless_script 0 = true
  /\ is_file sample_fs (sample_dir ++ [str "nodes_a_data.csv"]) = true
  /\ rewrite sample_fs nodes_b bodyless_script = EmptyBody.
Proof. repeat split; vm_compute; reflexivity. Qed.

(** C10. The statement fails on the code: the internal-error branch of
    line 223 is reached.  Line 214 writes the name of the data file into the
    replacement string of [sub], which reads that string as a template.  The
    data file of this script is named [a\047.csv]: the pattern is found,
    the data file exists, [sub] takes the backslash and the three digits
    for an octal escape and writes a quote in their place, and the second
    search finds no clause in the modified text. *)
Theorem rewrite_reaches_internal_error :
  search pattern_load_csv (drop_last octal_script)
  = Some (mk_match 0 (str "LOAD CSV FROM 'file:/a\047.csv' AS line")
            (clause_caps (str "LOAD CSV FROM ") (str "a\047.csv")
                         (str " AS line") (str "line")))
  /\ is_file sample_fs (sample_dir ++ [str "a\047.csv"]) = true
  /\ sub_first pattern_load_csv
       (str "LOAD CSV FROM 'file:///a\047.csv' AS line") octal_script
     = Some (lines ["LOAD CSV FROM 'file:///a'.csv' AS line"%string;
                    "CREATE (n);"%string])
  /\ search pattern_load_csv
       (lines ["LOAD CSV FROM 'file:///a'.csv' AS line"%string;
               "CREATE (n);"%string]) = None
  /\ rewrite sample_fs nodes_b octal_script = InternalError.
Proof. repeat split; vm_compute; reflexivity. Qed.

(* ================================================================== *)
(** * The engine and the declarative reading agree *)

Lemma lit_match_split : forall l s s',
  lit_match l s = Some s' ->
  exists m, s = m ++ s' /\ lit_match l m = Some [] /\ length m = length l.
Proof.
  induction l as [|a l IH]; intros s s' H; simpl in H.
  - injection H as <-. exists []. repeat split.
  - destruct s as [|x s]; [discriminate|].
    destruct (ci_eqb a x) eqn:E; [|discriminate].
    destruct (IH _ _ H) as (m & -> & Hm & Hl).
    exists (x :: m). simpl. rewrite E. repeat split; [assumption | now f_equal].
Qed.

Lemma lit_match_app : forall l m s',
  lit_match l m = Some [] -> lit_match l (m ++ s') = Some s'.
Proof.
  induction l as [|a l IH]; intros m s' H; simpl in *.
  - injection H as ->. reflexivity.
  - destruct m as [|x m]; [discriminate|]. simpl.
    destruct (ci_eqb a x); [now apply IH | discriminate].
Qed.

Lemma lit_match_length : forall l m,
  lit_match l m = Some [] -> length m = length l.
Proof.
  intros l m H. destruct (lit_match_split _ _ H) as (m' & E & _ & Hl).
  rewrite app_nil_r in E. now subst.
Qed.

Lemma firstn_consumed : forall (m s' : text),
  firstn (length (m ++ s') - length s') (m ++ s') = m.
Proof.
  intros m s'. rewrite length_app, Nat.add_sub.
  rewrite firstn_app, Nat.sub_diag, firstn_all. simpl. apply app_nil_r.
Qed.

Section EngineFacts.
Variable A : Type.

Lemma star_greedy_sound : forall p s c (k : cont A) x,
  star_greedy p s c k = Some x ->
  exists w s', s = w ++ s' /\ forallb p w = true /\ k s' c = Some x.
Proof.
  induction s as [|y s IH]; intros c k x H; simpl in H.
  - exists [], []. auto.
  - destruct (p y) eqn:Py.
    + destruct (star_greedy p s c k) as [r|] eqn:E.
      * injection H as <-. destruct (IH _ _ _ E) as (w & s' & -> & Hw & Hk).
        exists (y :: w), s'. simpl. rewrite Py, Hw. auto.
      * exists [], (y :: s). auto.
    + exists [], (y :: s). auto.
Qed.

Lemma star_greedy_complete : forall p w s' c (k : cont A),
  forallb p w = true -> k s' c <> None -> star_greedy p (w ++ s') c k <> None.
Proof.
  induction w as [|y w IH]; intros s' c k Hw Hk; simpl in *.
  - destruct s' as [|z s']; [assumption|]. simpl.
    destruct (p z); [|assumption].
    destruct (star_greedy p s' c k); [discriminate | assumption].
  - apply andb_true_iff in Hw as [Py Hw]. rewrite Py.
    specialize (IH s' c k Hw Hk).
    destruct (star_greedy p (w ++ s') c k); [discriminate | contradiction].
Qed.

(** With a continuation that accepts everything, a repetition takes all the
    characters of its class. *)
Lemma star_greedy_takes_all : forall p s c (k : cont A) x,
  (forall s c, k s c <> None) ->
  star_greedy p s c k = Some x ->
  exists w s', s = w ++ s' /\ forallb p w = true /\ stops p s' = true
               /\ k s' c = Some x.
Proof.
  induction s as [|y s IH]; intros c k x Hk H; simpl in H.
  - exists [], []. auto.
  - destruct (p y) eqn:Py.
    + destruct (star_greedy p s c k) as [r|] eqn:E.
      * injection H as <-. destruct (IH _ _ _ Hk E) as (w & s' & -> & Hw & Hs & Hk').
        exists (y :: w), s'. simpl. rewrite Py, Hw. auto.
      * exfalso. revert E. apply (star_greedy_complete p [] s c k eq_refl).
        apply Hk.
    + exists [], (y :: s). simpl. rewrite Py. auto.
Qed.
End EngineFacts.

Lemma exec_sound : forall r (A : Type) s c (k : cont A) x,
  exec r s c k = Some x ->
  exists m s' c', s = m ++ s' /\ matched r m c c' /\ k s' c' = Some x.
Proof.
  induction r as [l|p|r1 IH1 r2 IH2|r IH|n r IH]; intros A s c k x H; simpl in H.
  - destruct (lit_match l s) as [s'|] eqn:E; [|discriminate].
    destruct (lit_match_split _ _ E) as (m & -> & Hm & _).
    exists m, s', c. repeat split; [now constructor | assumption].
  - unfold plus_greedy in H. destruct s as [|y s]; [discriminate|].
    destruct (p y) eqn:Py; [|discriminate].
    destruct (star_greedy_sound _ _ _ _ H) as (w & s' & -> & Hw & Hk).
    exists (y :: w), s', c. repeat split; [now constructor | assumption].
  - destruct (IH1 _ _ _ _ _ H) as (m1 & s1 & c1 & -> & Hm1 & H1).
    destruct (IH2 _ _ _ _ _ H1) as (m2 & s2 & c2 & -> & Hm2 & H2).
    exists (m1 ++ m2), s2, c2. rewrite <- app_assoc.
    repeat split; [econstructor; eassumption | assumption].
  - destruct (exec r s c k) as [y|] eqn:E.
    + injection H as <-. destruct (IH _ _ _ _ _ E) as (m & s' & c' & -> & Hm & Hk).
      exists m, s', c'. repeat split; [now apply M_OptSome | assumption].
    + exists [], s, c. repeat split; [apply M_OptNone | assumption].
  - destruct (IH _ _ _ _ _ H) as (m & s' & c' & -> & Hm & Hk).
    rewrite firstn_consumed in Hk.
    exists m, s', ((n, m) :: c'). repeat split; [now constructor | assumption].
Qed.

Lemma exec_complete : forall r m c c',
  matched r m c c' ->
  forall (A : Type) s' (k : cont A) c0,
    (forall c'', k s' c'' <> None) -> exec r (m ++ s') c0 k <> None.
Proof.
  induction 1 as [l m c Hl|p y w c Py Hw|r1 r2 m1 m2 c c1 c2 H1 IH1 H2 IH2
                  |r c|r m c c' H IH|n r m c c' H IH];
    intros A s' k c0 Hk; simpl.
  - rewrite (lit_match_app _ _ s' Hl). apply Hk.
  - rewrite Py. apply star_greedy_complete; [assumption | apply Hk].
  - rewrite <- app_assoc. apply IH1. intros c''. apply IH2. assumption.
  - destruct (exec r s' c0 k); [discriminate | apply Hk].
  - specialize (IH A s' k c0 Hk).
    destruct (exec r (m ++ s') c0 k); [discriminate | contradiction].
  - apply IH. intros c''. apply Hk.
Qed.
(* ================================================================== *)
(** * Characters and runs of characters *)

Lemma all_chars_complete : forall x : ascii, In x all_chars.
Proof.
  intros x. unfold all_chars. rewrite <- (ascii_nat_embedding x).
  apply in_map, in_seq. pose proof (nat_ascii_bounded x). lia.
Qed.

Lemma for_all_chars : forall (P : ascii -> bool),
  forallb P all_chars = true -> forall x, P x = true.
Proof.
  intros P H x. rewrite forallb_forall in H. apply H, all_chars_complete.
Qed.

Lemma ci_eqb_quote : forall x, ci_eqb quote x = true -> x = quote.
Proof.
  intros x H.
  assert (E : implb (ci_eqb quote x) (Ascii.eqb x quote) = true).
  { revert x H. intros x _. revert x. apply for_all_chars. vm_compute. reflexivity. }
  rewrite H in E. simpl in E. now apply Ascii.eqb_eq.
Qed.

Lemma word_not_space : forall x, is_word x = true -> is_space x = false.
Proof.
  intros x H.
  assert (E : implb (is_word x) (negb (is_space x)) = true).
  { revert x H. intros x _. revert x. apply for_all_chars. vm_compute. reflexivity. }
  rewrite H in E. simpl in E. now apply negb_true_iff.
Qed.

Lemma ci_A_not_space : forall x, ci_eqb "A" x = true -> is_space x = false.
Proof.
  intros x H.
  assert (E : implb (ci_eqb "A" x) (negb (is_space x)) = true).
  { revert x H. intros x _. revert x. apply for_all_chars. vm_compute. reflexivity. }
  rewrite H in E. simpl in E. now apply negb_true_iff.
Qed.

(** A run of [p] followed by a text that stops [p] is determined by the
    whole. *)
Lemma run_unique : forall (p : ascii -> bool) (a a' b b' : text),
  forallb p a = true -> forallb p a' = true ->
  stops p b = true -> stops p b' = true ->
  a ++ b = a' ++ b' -> a = a' /\ b = b'.
Proof.
  induction a as [|x a IH]; intros a' b b' Ha Ha' Hb Hb' E.
  - destruct a' as [|y a']; [auto|]. simpl in *. subst b.
    simpl in Hb. apply andb_true_iff in Ha' as [Py _]. rewrite Py in Hb.
    discriminate.
  - destruct a' as [|y a']; simpl in *.
    + subst b'. simpl in Hb'. apply andb_true_iff in Ha as [Px _].
      rewrite Px in Hb'. discriminate.
    + injection E as -> E. apply andb_true_iff in Ha as [_ Ha].
      apply andb_true_iff in Ha' as [_ Ha'].
      destruct (IH _ _ _ Ha Ha' Hb Hb' E) as [-> ->]. auto.
Qed.

Lemma app_same_length : forall (a a' b b' : text),
  length a = length a' -> a ++ b = a' ++ b' -> a = a' /\ b = b'.
Proof.
  induction a as [|x a IH]; intros [|y a'] b b' Hl E; simpl in *;
    try discriminate; auto.
  injection E as -> E. injection Hl as Hl.
  destruct (IH _ _ _ Hl E) as [-> ->]. auto.
Qed.

(* ================================================================== *)
(** * What the pattern matches *)

Lemma lit_match_confined : forall (f : ascii -> bool) l m,
  forallb (fun a => forallb (fun x => implb (ci_eqb a x) (f x)) all_chars) l = true ->
  lit_match l m = Some [] -> forallb f m = true.
Proof.
  induction l as [|a l IH]; intros m Hc Hm; cbn [lit_match forallb] in *.
  - injection Hm as ->. reflexivity.
  - destruct m as [|x m]; [discriminate|].
    destruct (ci_eqb a x) eqn:E; [|discriminate].
    apply andb_true_iff in Hc as [Ha Hc]. cbn [forallb].
    pose proof (for_all_chars _ Ha x) as Hx. cbv beta in Hx. rewrite E in Hx.
    cbn [implb] in Hx. rewrite Hx. cbn [andb]. now apply IH.
Qed.

Lemma forallb_impl : forall (p f : ascii -> bool) w,
  (forall x, implb (p x) (f x) = true) -> forallb p w = true -> forallb f w = true.
Proof.
  intros p f w H. induction w as [|x w IH]; simpl; [auto|].
  intros Hw. apply andb_true_iff in Hw as [Px Hw].
  specialize (H x). rewrite Px in H. simpl in H. rewrite H. simpl. auto.
Qed.

(** The characters of a match stay inside what the expression is confined
    to. *)
Lemma matched_confined : forall (f : ascii -> bool) r m c c',
  matched r m c c' -> confined f r = true -> forallb f m = true.
Proof.
  intros f. induction 1 as [l m c Hl|p y w c Py Hw|r1 r2 m1 m2 c c1 c2 H1 IH1 H2 IH2
                  |r c|r m c c' H IH|n r m c c' H IH]; cbn [confined]; intros Hc.
  - eapply lit_match_confined; eassumption.
  - pose proof (for_all_chars _ Hc) as Hall. cbv beta in Hall.
    apply (forallb_impl p f (y :: w) Hall). cbn [forallb]. rewrite Py. assumption.
  - apply andb_true_iff in Hc as [Hc1 Hc2]. rewrite forallb_app.
    rewrite IH1, IH2 by assumption. reflexivity.
  - reflexivity.
  - auto.
  - auto.
Qed.

Lemma matched_groupless : forall r m c c',
  matched r m c c' -> groupless r = true ->
  c' = c /\ forall c0, matched r m c0 c0.
Proof.
  induction 1 as [l m c Hl|p y w c Py Hw|r1 r2 m1 m2 c c1 c2 H1 IH1 H2 IH2
                  |r c|r m c c' H IH|n r m c c' H IH]; simpl; intros Hg.
  - split; [reflexivity | intros; now constructor].
  - split; [reflexivity | intros; now constructor].
  - apply andb_true_iff in Hg as [Hg1 Hg2].
    destruct (IH1 Hg1) as [-> K1]. destruct (IH2 Hg2) as [-> K2].
    split; [reflexivity | intros; econstructor; eauto].
  - split; [reflexivity | intros; constructor].
  - destruct (IH Hg) as [-> K]. split; [reflexivity | intros; now apply M_OptSome].
  - discriminate.
Qed.

Lemma matched_lit_nil : forall m c c', matched (Lit []) m c c' -> m = [] /\ c' = c.
Proof.
  intros m c c' H. inversion H; subst. simpl in *.
  match goal with E : Some _ = Some _ |- _ => injection E as -> end. auto.
Qed.

Lemma matched_plus : forall p m c c',
  matched (Plus p) m c c' -> m <> [] /\ forallb p m = true /\ c' = c.
Proof.
  intros p m c c' H. inversion H; subst. simpl.
  repeat split; [discriminate|].
  match goal with E : p _ = true |- _ => rewrite E end. assumption.
Qed.

Lemma plus_matched : forall p m c,
  m <> [] -> forallb p m = true -> matched (Plus p) m c c.
Proof.
  intros p [|x m] c Hn Hm; [contradiction|]. simpl in Hm.
  apply andb_true_iff in Hm as [Px Hm]. now constructor.
Qed.

Lemma matched_suffix : forall g3 c c',
  matched re_suffix g3 c c' <-> exists g4, c' = (4, g4) :: c /\ suffix_parts g3 g4.
Proof.
  intros g3 c c'. unfold re_suffix, seqs. cbn [fold_right]. split.
  - intros H.
    inversion H as [| |? ? w6 t1 ? ? ? H1 H2| | |]; subst; clear H.
    inversion H2 as [| |? ? a t2 ? ? ? H3 H4| | |]; subst; clear H2.
    inversion H4 as [| |? ? w7 t3 ? ? ? H5 H6| | |]; subst; clear H4.
    inversion H6 as [| |? ? g4 t4 ? ? ? H7 H8| | |]; subst; clear H6.
    apply matched_lit_nil in H8 as [-> ->].
    inversion H7 as [| | | | |? ? ? ? ? H9]; subst; clear H7.
    apply matched_plus in H1 as (N1 & F1 & ->).
    apply matched_plus in H5 as (N5 & F5 & ->).
    apply matched_plus in H9 as (N9 & F9 & ->).
    inversion H3; subst.
    exists g4. split; [reflexivity|].
    exists w6, a, w7. rewrite app_nil_r. repeat split; assumption.
  - intros (g4 & -> & w6 & a & w7 & -> & N1 & F1 & La & N5 & F5 & N9 & F9).
    replace (w6 ++ a ++ w7 ++ g4) with (w6 ++ a ++ w7 ++ g4 ++ [])
      by now rewrite app_nil_r.
    eapply M_Seq; [now apply plus_matched|].
    eapply M_Seq; [now constructor|].
    eapply M_Seq; [now apply plus_matched|].
    eapply M_Seq; [constructor; now apply plus_matched|].
    now constructor.
Qed.

Lemma lit_file_split : forall l7,
  lit_match (str "'file:/") l7 = Some [] ->
  exists l6, l7 = quote :: l6 /\ lit_match (str "file:/") l6 = Some [].
Proof.
  intros [|x l6] H; [discriminate|]. simpl in H.
  destruct (ci_eqb "'" x) eqn:E; [|discriminate].
  apply ci_eqb_quote in E. subst x. exists l6. split; [reflexivity | exact H].
Qed.

Lemma lit_quote_only : forall q, lit_match (str "'") q = Some [] -> q = [quote].
Proof.
  intros [|x q] H; [discriminate|]. simpl in H.
  destruct (ci_eqb "'" x) eqn:E; [|discriminate].
  apply ci_eqb_quote in E. subst x. injection H as ->. reflexivity.
Qed.

(** A text matched by the pattern is a clause, and the groups are its
    parts. *)
Lemma matched_pattern : forall m c caps,
  matched pattern_load_csv m c caps <->
  exists g1 l6 g2 g3 g4,
    m = clause_text g1 l6 g2 g3
    /\ caps = clause_caps g1 g2 g3 g4 ++ c
    /\ clause_parts g1 l6 g2 g3 g4.
Proof.
  intros m c caps. unfold pattern_load_csv, seqs. cbn [fold_right]. split.
  - intros H.
    inversion H as [| |? ? g1 t1 ? ? ? H1 H2| | |]; subst; clear H.
    inversion H2 as [| |? ? l7 t2 ? ? ? H3 H4| | |]; subst; clear H2.
    inversion H4 as [| |? ? g2 t3 ? ? ? H5 H6| | |]; subst; clear H4.
    inversion H6 as [| |? ? q t4 ? ? ? H7 H8| | |]; subst; clear H6.
    inversion H8 as [| |? ? g3 t5 ? ? ? H9 H10| | |]; subst; clear H8.
    apply matched_lit_nil in H10 as [-> ->].
    inversion H1 as [| | | | |? ? ? ? ? G1]; subst; clear H1.
    inversion H5 as [| | | | |? ? ? ? ? G2]; subst; clear H5.
    inversion H9 as [| | | | |? ? ? ? ? G3]; subst; clear H9.
    inversion H3; subst. inversion H7; subst.
    destruct (matched_groupless G1 eq_refl) as [-> K1].
    apply matched_plus in G2 as (N2 & F2 & ->).
    apply matched_suffix in G3 as (g4 & -> & Hs).
    match goal with E : lit_match [_; _; _; _; _; _; _] ?l = _ |- _ =>
      apply (lit_file_split l) in E as (l6 & -> & Hl6) end.
    match goal with E : lit_match [_] ?l = _ |- _ =>
      apply (lit_quote_only l) in E as -> end.
    exists g1, l6, g2, g3, g4. unfold clause_text, clause_caps, clause_parts.
    rewrite app_nil_r. simpl. repeat split; auto.
  - intros (g1 & l6 & g2 & g3 & g4 & -> & -> & P1 & Hl6 & N2 & F2 & Hs).
    unfold clause_text, clause_caps. simpl.
    replace (g1 ++ quote :: l6 ++ g2 ++ quote :: g3)
      with (g1 ++ (quote :: l6) ++ g2 ++ [quote] ++ g3 ++ [])
      by (simpl; now rewrite app_nil_r).
    destruct (matched_groupless P1 eq_refl) as [_ K1].
    eapply M_Seq; [constructor; apply K1|].
    eapply M_Seq; [constructor; simpl; exact Hl6|].
    eapply M_Seq; [constructor; now apply plus_matched|].
    eapply M_Seq; [constructor; reflexivity|].
    eapply M_Seq; [constructor; apply matched_suffix; eauto|].
    now constructor.
Qed.
(** An expression that ends with a run, under a continuation that accepts
    everything, leaves a text that stops the run. *)
Lemma exec_ends_run : forall p r,
  ends_run p r ->
  forall (A : Type) s c (k : cont A) x,
    (forall s c, k s c <> None) ->
    exec r s c k = Some x ->
    exists s' c', stops p s' = true /\ k s' c' = Some x.
Proof.
  induction 1 as [|r1 r2 H IH|r1 H IH|n r H IH]; intros A s c k x Hk E.
  - cbn [exec] in E. unfold plus_greedy in E.
    destruct s as [|y s]; [discriminate|]. destruct (p y); [|discriminate].
    destruct (star_greedy_takes_all _ _ _ _ Hk E) as (w & s' & _ & _ & Hs & Hx).
    eauto.
  - cbn [exec] in E. apply exec_sound in E as (m & s1 & c1 & _ & _ & E).
    eapply IH; eassumption.
  - cbn [exec] in E.
    apply (IH A s c (fun s1 c1 => exec (Lit []) s1 c1 k)) in E.
    + destruct E as (s' & c' & Hs & E). simpl in E. eauto.
    + intros s0 c0. simpl. apply Hk.
  - cbn [exec] in E.
    apply (IH A s c
             (fun s1 c1 => k s1 ((n, firstn (length s - length s1) s) :: c1)))
      in E.
    + destruct E as (s' & c' & Hs & E). eauto.
    + intros s0 c0. apply Hk.
Qed.

Lemma pattern_ends_run : ends_run is_word pattern_load_csv.
Proof.
  unfold pattern_load_csv, re_suffix, seqs. cbn [fold_right].
  do 4 apply ER_Seq. apply ER_SeqNil, ER_Group.
  do 3 apply ER_Seq. apply ER_SeqNil, ER_Group, ER_Plus.
Qed.

(** What a successful match at the head of [s] says about [s]. *)
Lemma match_here_sound : forall s rest caps,
  match_here pattern_load_csv s = Some (rest, caps) ->
  exists g1 l6 g2 g3 g4,
    s = clause_text g1 l6 g2 g3 ++ rest
    /\ caps = clause_caps g1 g2 g3 g4
    /\ clause_parts g1 l6 g2 g3 g4
    /\ stops is_word rest = true.
Proof.
  intros s rest caps H. unfold match_here in H.
  pose proof H as H'.
  apply exec_sound in H as (m & s' & c' & -> & Hm & E).
  injection E as -> ->.
  apply matched_pattern in Hm as (g1 & l6 & g2 & g3 & g4 & -> & -> & Hp).
  exists g1, l6, g2, g3, g4. rewrite app_nil_r.
  split; [reflexivity|]. split; [reflexivity|]. split; [assumption|].
  apply (exec_ends_run pattern_ends_run) in H'; [|intros; discriminate].
  destruct H' as (s' & c' & Hs & E). injection E as -> _. assumption.
Qed.

Lemma prefix_no_quote : forall g1 c c',
  matched re_prefix g1 c c' -> forallb not_quote g1 = true.
Proof.
  intros g1 c c' H. apply (matched_confined not_quote H). vm_compute. reflexivity.
Qed.

Lemma lit_AS_shape : forall a,
  lit_match (str "AS") a = Some [] ->
  length a = 2 /\ forall t, stops is_space (a ++ t) = true.
Proof.
  intros a H. split; [apply (lit_match_length _ _ H)|].
  destruct a as [|x a]; [discriminate|]. simpl in H.
  destruct (ci_eqb "A" x) eqn:E; [|discriminate].
  intros t. simpl. now rewrite (ci_A_not_space _ E).
Qed.

Lemma word_run_stops_space : forall g4 t,
  g4 <> [] -> forallb is_word g4 = true -> stops is_space (g4 ++ t) = true.
Proof.
  intros [|x g4] t Hn Hw; [contradiction|]. simpl in *.
  apply andb_true_iff in Hw as [Hx _]. now rewrite (word_not_space _ Hx).
Qed.

Lemma suffix_unique : forall g3 g4 g3' g4' rest rest',
  suffix_parts g3 g4 -> suffix_parts g3' g4' ->
  stops is_word rest = true -> stops is_word rest' = true ->
  g3 ++ rest = g3' ++ rest' ->
  g3 = g3' /\ g4 = g4' /\ rest = rest'.
Proof.
  intros g3 g4 g3' g4' rest rest'
    (w6 & a & w7 & -> & N6 & F6 & La & N7 & F7 & N4 & F4)
    (w6' & a' & w7' & -> & N6' & F6' & La' & N7' & F7' & N4' & F4')
    Hr Hr' E.
  repeat rewrite <- app_assoc in E.
  destruct (lit_AS_shape _ La) as [Ll Ls].
  destruct (lit_AS_shape _ La') as [Ll' Ls'].
  apply run_unique with (p := is_space) in E as [<- E]; auto.
  apply app_same_length in E as [<- E]; [|congruence].
  apply run_unique with (p := is_space) in E as [<- E];
    auto using word_run_stops_space.
  apply run_unique with (p := is_word) in E as [<- <-]; auto.
Qed.

Lemma stops_quote : forall t, stops not_quote (quote :: t) = true.
Proof. reflexivity. Qed.

Lemma clause_unique : forall g1 l6 g2 g3 g4 g1' l6' g2' g3' g4' rest rest',
  clause_parts g1 l6 g2 g3 g4 -> clause_parts g1' l6' g2' g3' g4' ->
  stops is_word rest = true -> stops is_word rest' = true ->
  clause_text g1 l6 g2 g3 ++ rest = clause_text g1' l6' g2' g3' ++ rest' ->
  g1 = g1' /\ l6 = l6' /\ g2 = g2' /\ g3 = g3' /\ g4 = g4' /\ rest = rest'.
Proof.
  intros g1 l6 g2 g3 g4 g1' l6' g2' g3' g4' rest rest'
    (P1 & L6 & N2 & F2 & S3) (P1' & L6' & N2' & F2' & S3') Hr Hr' E.
  unfold clause_text in E. repeat rewrite <- app_assoc in E. simpl in E.
  repeat rewrite <- app_assoc in E. simpl in E.
  apply run_unique with (p := not_quote) in E as [<- E];
    eauto using prefix_no_quote, stops_quote.
  injection E as E.
  apply app_same_length in E as [<- E];
    [|rewrite (lit_match_length _ _ L6), (lit_match_length _ _ L6'); reflexivity].
  apply run_unique with (p := not_quote) in E as [<- E];
    auto using stops_quote.
  injection E as E.
  destruct (@suffix_unique g3 g4 g3' g4' rest rest' S3 S3' Hr Hr' E) as (<- & <- & <-).
  repeat split.
Qed.

(** The engine finds a clause that is there, with these groups. *)
Lemma match_here_clause : forall g1 l6 g2 g3 g4 rest,
  clause_parts g1 l6 g2 g3 g4 ->
  stops is_word rest = true ->
  match_here pattern_load_csv (clause_text g1 l6 g2 g3 ++ rest)
  = Some (rest, clause_caps g1 g2 g3 g4).
Proof.
  intros g1 l6 g2 g3 g4 rest Hp Hr.
  assert (Hm : matched pattern_load_csv (clause_text g1 l6 g2 g3) []
                 (clause_caps g1 g2 g3 g4)).
  { apply matched_pattern. exists g1, l6, g2, g3, g4.
    rewrite app_nil_r. auto. }
  destruct (match_here pattern_load_csv (clause_text g1 l6 g2 g3 ++ rest))
    as [[rest' caps']|] eqn:E.
  - apply match_here_sound in E
      as (g1' & l6' & g2' & g3' & g4' & E & -> & Hp' & Hr').
    destruct (@clause_unique g1 l6 g2 g3 g4 g1' l6' g2' g3' g4' rest rest'
                Hp Hp' Hr Hr' E) as (<- & <- & <- & <- & <- & <-).
    reflexivity.
  - exfalso. revert E. unfold match_here.
    apply (exec_complete Hm). intros. discriminate.
Qed.

(** Existence only: a clause followed by any text is matched. *)
Lemma match_here_exists : forall g1 l6 g2 g3 g4 t,
  clause_parts g1 l6 g2 g3 g4 ->
  match_here pattern_load_csv (clause_text g1 l6 g2 g3 ++ t) <> None.
Proof.
  intros g1 l6 g2 g3 g4 t Hp. unfold match_here.
  eapply exec_complete; [|intros; discriminate].
  apply matched_pattern. exists g1, l6, g2, g3, g4.
  rewrite app_nil_r. split; [reflexivity | split; [reflexivity | exact Hp]].
Qed.
(* ================================================================== *)
(** * [search] returns the leftmost match *)

Lemma search_from_found : forall r s q pos rest c,
  match_here r (skipn q s) = Some (rest, c) ->
  (forall q', q' < q -> match_here r (skipn q' s) = None) ->
  q <= length s ->
  search_from r s pos
  = Some (mk_match (pos + q)
            (firstn (length (skipn q s) - length rest) (skipn q s)) c).
Proof.
  intros r. induction s as [|y s IH]; intros q pos rest c Hm Hq Hl.
  - simpl in Hl. assert (q = 0) by lia. subst q. simpl in *.
    rewrite Hm. rewrite Nat.add_0_r. reflexivity.
  - destruct q as [|q].
    + simpl in Hm. cbn [search_from]. rewrite Hm. rewrite Nat.add_0_r.
      reflexivity.
    + cbn [search_from]. pose proof (Hq 0 (Nat.lt_0_succ q)) as H0.
      cbn [skipn] in H0. rewrite H0.
      replace (pos + S q) with (S pos + q) by lia.
      apply IH; [exact Hm | | simpl in Hl; lia].
      intros q' Hlt. apply (Hq (S q')). lia.
Qed.

Lemma search_from_inv : forall r s pos m,
  search_from r s pos = Some m ->
  exists q rest,
    q <= length s
    /\ match_here r (skipn q s) = Some (rest, m_caps m)
    /\ m_start m = pos + q
    /\ m_text m = firstn (length (skipn q s) - length rest) (skipn q s)
    /\ forall q', q' < q -> match_here r (skipn q' s) = None.
Proof.
  intros r. induction s as [|y s IH]; intros pos m H; cbn [search_from] in H.
  - destruct (match_here r []) as [[rest c]|] eqn:E; [|discriminate].
    injection H as <-. exists 0, rest. simpl. rewrite E, Nat.add_0_r.
    repeat split; auto. intros q' Hq. lia.
  - destruct (match_here r (y :: s)) as [[rest c]|] eqn:E.
    + injection H as <-. exists 0, rest. cbn [skipn m_caps m_start m_text].
      rewrite E, Nat.add_0_r. repeat split; auto; try lia.
    + destruct (IH _ _ H) as (q & rest & Hl & Hm & Hs & Ht & Hq).
      exists (S q), rest. cbn [skipn length]. repeat split; auto; try lia.
      intros [|q'] Hlt; [exact E | apply Hq; lia].
Qed.

Lemma search_exists : forall r s q,
  match_here r (skipn q s) <> None -> search r s <> None.
Proof.
  intros r s q H. unfold search. generalize 0 as pos. revert q H.
  induction s as [|y s IH]; intros q H pos; cbn [search_from].
  - rewrite skipn_nil in H.
    destruct (match_here r []) as [[rest c]|]; [discriminate | contradiction].
  - destruct (match_here r (y :: s)) as [[rest c]|] eqn:E; [discriminate|].
    destruct q as [|q]; [simpl in H; contradiction|].
    apply (IH q H).
Qed.

(* ================================================================== *)
(** * Replacement texts without a backslash are taken as they are *)

Lemma tokenize_plain : forall t,
  forallb not_backslash t = true -> tokenize t = Some (map TChar t).
Proof.
  induction t as [|c t IH]; intros H; simpl in *; [reflexivity|].
  apply andb_true_iff in H as [Hc Ht]. unfold not_backslash in Hc.
  apply negb_true_iff in Hc. rewrite Hc, (IH Ht). reflexivity.
Qed.

Lemma parse_tokens_plain : forall t,
  parse_tokens (map TChar t) None = Some (map (fun c => ILit [c]) t).
Proof.
  induction t as [|c t IH]; simpl; [reflexivity|]. rewrite IH. reflexivity.
Qed.

Lemma expand_plain : forall t m,
  expand_template (map (fun c => ILit [c]) t) m = t.
Proof.
  intros t m. unfold expand_template. induction t as [|c t IH]; simpl;
    [reflexivity | now rewrite IH].
Qed.

Lemma sub_first_plain : forall r repl s,
  forallb not_backslash repl = true ->
  sub_first r repl s
  = match search r s with
    | None => Some s
    | Some m => Some (firstn (m_start m) s ++ repl ++ skipn (m_end m) s)
    end.
Proof.
  intros r repl s H. unfold sub_first, parse_template.
  rewrite (tokenize_plain _ H), parse_tokens_plain.
  destruct (search r s); [|reflexivity]. now rewrite expand_plain.
Qed.

(* ================================================================== *)
(** * The name of the data file *)

Lemma split_on_components : forall sep s comp,
  In comp (split_on sep s) ->
  forallb (fun c => negb (Ascii.eqb c sep)) comp = true
  /\ forall x, In x comp -> In x s.
Proof.
  intros sep. induction s as [|c s IH]; intros comp H; simpl in H.
  - destruct H as [<-|[]]. split; [reflexivity | intros x []].
  - destruct (Ascii.eqb c sep) eqn:E.
    + destruct H as [<-|H]; [split; [reflexivity | intros x []]|].
      destruct (IH _ H) as [F I]. split; [assumption|]. intros x Hx. right. auto.
    + destruct (split_on sep s) as [|h t] eqn:Es.
      * destruct H as [<-|[]]. simpl. rewrite E. split; [reflexivity|].
        intros x [<-|[]]. now left.
      * destruct H as [<-|H].
        -- destruct (IH h (or_introl eq_refl)) as [F I]. simpl. rewrite E, F.
           split; [reflexivity|]. intros x [<-|Hx]; [now left | right; auto].
        -- destruct (IH comp (or_intror H)) as [F I]. split; [assumption|].
           intros x Hx. right. auto.
Qed.

Lemma split_on_no_sep : forall sep s,
  forallb (fun c => negb (Ascii.eqb c sep)) s = true -> split_on sep s = [s].
Proof.
  intros sep. induction s as [|c s IH]; intros H; simpl in *; [reflexivity|].
  apply andb_true_iff in H as [Hc Hs]. apply negb_true_iff in Hc.
  rewrite Hc, (IH Hs). reflexivity.
Qed.

Lemma last_in : forall (l : list text) d, l <> [] -> In (last l d) l.
Proof.
  induction l as [|x l IH]; intros d H; [contradiction|].
  destruct l as [|y l]; [now left|]. right. apply IH. discriminate.
Qed.

(** The final component [nm] of a reference, when it is not empty, is one
    component itself: joined to a directory it names an entry [nm] there,
    and its characters are characters of the reference. *)
Lemma data_file_name : forall (g : text) (dir : Path),
  let nm := name (parse_path g) in
  nm <> [] ->
  name (joinpath dir nm) = nm /\ forall x, In x nm -> In x g.
Proof.
  intros g dir nm Hn.
  assert (Hin : In nm (parse_path g)).
  { unfold nm, name. apply last_in. intros E. apply Hn. unfold nm, name.
    rewrite E. reflexivity. }
  unfold parse_path in Hin. apply filter_In in Hin as [Hin Hf].
  destruct (split_on_components _ _ _ Hin) as [Hs Hsub].
  split; [|exact Hsub].
  unfold joinpath, parse_path. rewrite (split_on_no_sep _ _ Hs).
  cbn [filter]. rewrite Hf. unfold name. apply last_last.
Qed.
(* ================================================================== *)
(** * The second search *)

Lemma suffix_no_backslash : forall g3 g4,
  suffix_parts g3 g4 -> forallb not_backslash g3 = true.
Proof.
  intros g3 g4 H.
  assert (Hm : matched re_suffix g3 [] [(4, g4)]).
  { apply matched_suffix. eauto. }
  apply (matched_confined not_backslash Hm). vm_compute. reflexivity.
Qed.

Lemma suffix_no_quote : forall g3 g4,
  suffix_parts g3 g4 -> forallb not_quote g3 = true.
Proof.
  intros g3 g4 H.
  assert (Hm : matched re_suffix g3 [] [(4, g4)]).
  { apply matched_suffix. eauto. }
  apply (matched_confined not_quote Hm). vm_compute. reflexivity.
Qed.

Lemma prefix_no_backslash : forall g1 c c',
  matched re_prefix g1 c c' -> forallb not_backslash g1 = true.
Proof.
  intros g1 c c' H. apply (matched_confined not_backslash H).
  vm_compute. reflexivity.
Qed.

Lemma forallb_subset : forall (f : ascii -> bool) (a b : text),
  (forall x, In x a -> In x b) -> forallb f b = true -> forallb f a = true.
Proof.
  intros f a b Hsub Hb. rewrite forallb_forall in *. auto.
Qed.

(** The text that replaces the clause (line 215), with the name [nm] for
    the data file. *)
Lemma replacement_is_clause : forall g1 l6 g2 g3 g4 nm,
  clause_parts g1 l6 g2 g3 g4 ->
  forallb not_quote nm = true ->
  g1 ++ [quote] ++ (str "file:///" ++ nm) ++ [quote] ++ g3
  = clause_text g1 (str "file:/") (str "//" ++ nm) g3
  /\ clause_parts g1 (str "file:/") (str "//" ++ nm) g3 g4.
Proof.
  intros g1 l6 g2 g3 g4 nm (P1 & L6 & N2 & F2 & S3) Hq. split.
  - unfold clause_text. simpl. reflexivity.
  - repeat split; auto; try discriminate.
Qed.

Lemma replacement_plain : forall g1 l6 g2 g3 g4 nm,
  clause_parts g1 l6 g2 g3 g4 ->
  forallb not_backslash nm = true ->
  forallb not_backslash
    (g1 ++ [quote] ++ (str "file:///" ++ nm) ++ [quote] ++ g3) = true.
Proof.
  intros g1 l6 g2 g3 g4 nm (P1 & L6 & N2 & F2 & S3) Hb.
  repeat rewrite forallb_app.
  rewrite (prefix_no_backslash P1), (suffix_no_backslash S3), Hb.
  reflexivity.
Qed.

Lemma drop_last_snoc : forall s : text,
  s <> [] -> exists z, s = drop_last s ++ [z].
Proof.
  intros s H. exists (last s "000"%char). now apply app_removelast_last.
Qed.

Lemma clause_text_not_nil : forall g1 l6 g2 g3 t,
  clause_text g1 l6 g2 g3 ++ t <> [].
Proof.
  intros g1 l6 g2 g3 t. unfold clause_text. destruct g1; discriminate.
Qed.

(** A match in the text without its last character is a match in the whole
    text, at the same place. *)
Lemma match_survives_last : forall s q,
  match_here pattern_load_csv (skipn q (drop_last s)) <> None ->
  match_here pattern_load_csv (skipn q s) <> None.
Proof.
  intros s q H.
  destruct (match_here pattern_load_csv (skipn q (drop_last s)))
    as [[rest caps]|] eqn:E; [clear H | contradiction].
  apply match_here_sound in E as (g1 & l6 & g2 & g3 & g4 & E & _ & Hp & _).
  destruct s as [|c s0]; [simpl in E; rewrite skipn_nil in E;
                          symmetry in E; now apply clause_text_not_nil in E|].
  destruct (@drop_last_snoc (c :: s0)) as [z Hz]; [discriminate|].
  assert (Hq : q <= length (drop_last (c :: s0))).
  { destruct (Nat.le_gt_cases q (length (drop_last (c :: s0)))) as [|Hgt]; auto.
    rewrite skipn_all2 in E by lia. symmetry in E.
    now apply clause_text_not_nil in E. }
  rewrite Hz, skipn_app, E.
  replace (q - length (drop_last (c :: s0))) with 0 by lia.
  cbn [skipn]. rewrite <- app_assoc. now apply match_here_exists with (g4 := g4).
Qed.

(** X19. When the pattern is found (in the text without its last
    character) and the name of the data file is not empty and has no
    backslash, the substitution of line 214 raises nothing and the second
    search, in the modified text, succeeds: the rewrite step ends neither
    in the internal error of line 223 nor in an error of [sub]. *)
Theorem second_search_succeeds :
  forall (fs : filesystem) (p : Path) (content : text) (m : re_match),
    search pattern_load_csv (drop_last content) = Some m ->
    name (parse_path (group m 2)) <> [] ->
    forallb not_backslash (name (parse_path (group m 2))) = true ->
    (exists modified,
        sub_first pattern_load_csv
          (group m 1 ++ [quote]
             ++ (str "file:///" ++ name (parse_path (group m 2)))
             ++ [quote] ++ group m 3)
          content = Some modified
        /\ search pattern_load_csv modified <> None)
    /\ rewrite fs p content <> InternalError
    /\ rewrite fs p content <> SubError.
Proof.
  intros fs p content m Hs Hn Hb.
  pose proof Hs as Hs0.
  apply search_from_inv in Hs as (q & rest & Hq & Hm & _ & _ & _).
  pose proof Hm as Hm0.
  apply match_here_sound in Hm as (g1 & l6 & g2 & g3 & g4 & E & Hc & Hp & _).
  destruct m as [st tx cp]. cbn [m_caps] in *. subst cp.
  cbn [group lookup_group clause_caps Nat.eqb m_caps] in *.
  set (nm := name (parse_path g2)) in *.
  assert (Hnq : forallb not_quote nm = true).
  { destruct (@data_file_name g2 [] Hn) as [_ Hsub].
    eapply forallb_subset; [exact Hsub | apply Hp]. }
  destruct (@replacement_is_clause g1 l6 g2 g3 g4 nm Hp Hnq) as [ER HR].
  pose proof (@replacement_plain g1 l6 g2 g3 g4 nm Hp Hb) as Hplain.
  assert (Hfull : search pattern_load_csv content <> None).
  { apply search_exists with (q := q). apply match_survives_last.
    rewrite Hm0. discriminate. }
  assert (Hsub : exists modified,
             sub_first pattern_load_csv
               (g1 ++ [quote] ++ (str "file:///" ++ nm) ++ [quote] ++ g3)
               content = Some modified
             /\ search pattern_load_csv modified <> None).
  { rewrite sub_first_plain by exact Hplain.
    destruct (search pattern_load_csv content) as [m'|] eqn:Em';
      [clear Hfull | contradiction].
    eexists. split; [reflexivity|].
    apply search_from_inv in Em' as (q' & rest' & Hq' & _ & Hst & _ & _).
    simpl in Hst. rewrite Hst.
    apply search_exists with (q := q').
    rewrite skipn_app, length_firstn, Nat.min_l by assumption.
    rewrite skipn_all2 by (rewrite length_firstn; lia).
    rewrite Nat.sub_diag. cbn [skipn]. rewrite app_nil_l, ER.
    now apply match_here_exists with (g4 := g4). }
  split; [exact Hsub|].
  destruct Hsub as (modified & Hsub & Hsearch).
  unfold rewrite. rewrite Hs0. cbv zeta.
  cbn [group lookup_group clause_caps Nat.eqb m_caps]. fold nm.
  destruct (is_file fs (joinpath (parent p) nm)); cbn [negb];
    [|split; discriminate].
  destruct (@data_file_name g2 (parent p) Hn) as [Hname _].
  fold nm in Hname. rewrite Hname, Hsub.
  destruct (search pattern_load_csv modified); [|contradiction].
  destruct (is_nil _); split; discriminate.
Qed.

Lemma second_search_witness :
  rewrite sample_fs nodes_b good_script <> InternalError.
Proof.
  refine (proj1 (proj2 (@second_search_succeeds sample_fs nodes_b good_script
                          _ _ _ _))).
  - vm_compute. reflexivity.
  - vm_compute. discriminate.
  - vm_compute. reflexivity.
Defined.

(* ================================================================== *)
(** * No clause appears before the rewritten one *)

Lemma first_quote_split : forall u : text,
  forallb not_quote u = true
  \/ exists u1 u2, u = u1 ++ quote :: u2 /\ forallb not_quote u1 = true.
Proof.
  induction u as [|x u IH]; [now left|].
  destruct (not_quote x) eqn:E.
  - destruct IH as [H|(u1 & u2 & -> & H)].
    + left. simpl. now rewrite E, H.
    + right. exists (x :: u1), u2. simpl. now rewrite E, H.
  - right. exists [], u. unfold not_quote in E. apply negb_false_iff in E.
    apply Ascii.eqb_eq in E. subst x. auto.
Qed.

Lemma prefix_before_quote : forall (a r v Z : text),
  forallb not_quote a = true ->
  a ++ r = v ++ quote :: Z ->
  forall Z', exists r', a ++ r' = v ++ quote :: Z'.
Proof.
  induction a as [|x a IH]; intros r v Z Ha E Z'.
  - eexists. reflexivity.
  - simpl in Ha. apply andb_true_iff in Ha as [Hx Ha].
    destruct v as [|y v]; simpl in E; injection E as -> E.
    + discriminate.
    + destruct (IH _ _ _ Ha E Z') as (r' & Hr). exists r'. simpl. now rewrite Hr.
Qed.

Lemma prefix_head : forall g c c',
  matched re_prefix g c c' ->
  exists x t, g = x :: t /\ is_L x = true /\ forallb not_L t = true.
Proof.
  intros g c c' H.
  change re_prefix with (Seq (Lit (str "LOAD")) re_prefix_tail) in H.
  inversion H as [| |? ? m1 m2 ? ? ? H1 H2| | |]; subst; clear H.
  inversion H1 as [? ? ? Hl| | | | |]; subst; clear H1.
  destruct m1 as [|x m1]; [discriminate|]. cbn [str list_ascii_of_string lit_match] in Hl.
  destruct (ci_eqb "L" x) eqn:E; [|discriminate].
  exists x, (m1 ++ m2). split; [reflexivity|]. split; [exact E|].
  rewrite forallb_app. apply andb_true_iff. split.
  - apply (lit_match_confined not_L (str "OAD")); [vm_compute; reflexivity | exact Hl].
  - apply (matched_confined not_L H2). vm_compute. reflexivity.
Qed.

Lemma file_head_not_space : forall l6 t,
  lit_match (str "file:/") l6 = Some [] -> stops is_space (l6 ++ t) = true.
Proof.
  intros l6 t H.
  assert (F : forallb (fun x => negb (is_space x)) l6 = true).
  { apply (lit_match_confined (fun x => negb (is_space x)) (str "file:/"));
      [vm_compute; reflexivity | exact H]. }
  destruct l6 as [|x l6]; [discriminate|]. simpl in *.
  now apply andb_true_iff in F as [-> _].
Qed.

Lemma suffix_head_space : forall g3 g4 t,
  suffix_parts g3 g4 -> stops is_space (g3 ++ t) = false.
Proof.
  intros g3 g4 t (w6 & a & w7 & -> & N6 & F6 & _).
  destruct w6 as [|x w6]; [contradiction|]. simpl in *.
  apply andb_true_iff in F6 as [-> _]. reflexivity.
Qed.

Lemma file_no_quote : forall l6,
  lit_match (str "file:/") l6 = Some [] -> forallb not_quote l6 = true.
Proof.
  intros l6 H. apply (lit_match_confined not_quote (str "file:/"));
    [vm_compute; reflexivity | exact H].
Qed.

(** Replacing the file reference of the leftmost clause does not create a
    clause before it. *)
Lemma no_match_before_clause : forall u g1 l6 g2 g3 g4 l6' g2' rest,
  u <> [] ->
  clause_parts g1 l6 g2 g3 g4 ->
  clause_parts g1 l6' g2' g3 g4 ->
  match_here pattern_load_csv (u ++ clause_text g1 l6 g2 g3 ++ rest) = None ->
  match_here pattern_load_csv (u ++ clause_text g1 l6' g2' g3 ++ rest) = None.
Proof.
  intros u g1 l6 g2 g3 g4 l6' g2' rest Hu Hp Hp' Hnone.
  destruct (match_here pattern_load_csv (u ++ clause_text g1 l6' g2' g3 ++ rest))
    as [[r' c']|] eqn:E; [exfalso | reflexivity].
  apply match_here_sound in E as (a1 & b6 & a2 & a3 & a4 & E & _ & Ha & _).
  destruct Ha as (A1 & B6 & NA2 & FA2 & SA3).
  pose proof Hp as (P1 & L6 & N2 & F2 & S3).
  pose proof Hp' as (_ & L6' & N2' & F2' & _).
  unfold clause_text in E. repeat rewrite <- app_assoc in E.
  cbn [app] in E. repeat rewrite <- app_assoc in E.
  pose proof (@prefix_no_quote _ _ _ P1) as Q1.
  pose proof (@prefix_no_quote _ _ _ A1) as QA1.
  assert (QB : forallb not_quote (b6 ++ a2) = true)
    by (rewrite forallb_app, FA2, (@file_no_quote b6 B6); reflexivity).
  destruct (first_quote_split u) as [Fu|(u1 & u2 & -> & Fu1)].
  - (* the text before the clause has no quote *)
    rewrite app_assoc in E.
    assert (Q : forallb not_quote (u ++ g1) = true)
      by (rewrite forallb_app, Fu, Q1; reflexivity).
    destruct (@run_unique not_quote _ _ _ _ Q QA1 (stops_quote _)
                (stops_quote _) E) as [E1 _].
    destruct (prefix_head A1) as (x & t & Ea & _ & Ht).
    destruct (prefix_head P1) as (y & t' & Eg & Hy & _).
    rewrite Ea, Eg in E1. destruct u as [|z u]; [contradiction|].
    simpl in E1. injection E1 as _ E1. rewrite <- E1 in Ht.
    rewrite forallb_app in Ht. apply andb_true_iff in Ht as [_ Ht].
    simpl in Ht. unfold not_L in Ht. rewrite Hy in Ht. discriminate.
  - repeat rewrite <- app_assoc in E. cbn [app] in E.
    destruct (@run_unique not_quote _ _ _ _ Fu1 QA1 (stops_quote _)
                (stops_quote _) E) as [<- E1].
    clear E. injection E1 as E.
    destruct (first_quote_split u2) as [Fu2|(u3 & u4 & -> & Fu3)].
    + (* one quote before the clause *)
      rewrite app_assoc in E. rewrite (app_assoc b6 a2) in E.
      assert (Q : forallb not_quote (u2 ++ g1) = true)
        by (rewrite forallb_app, Fu2, Q1; reflexivity).
      destruct (@run_unique not_quote _ _ _ _ Q QB (stops_quote _)
                  (stops_quote _) E) as [_ E1].
      injection E1 as E1.
      pose proof (@suffix_head_space a3 a4 r' SA3) as Hs.
      rewrite <- E1 in Hs.
      rewrite (@file_head_not_space l6' _ L6') in Hs. discriminate.
    + (* two quotes or more before the clause *)
      repeat rewrite <- app_assoc in E. cbn [app] in E.
      rewrite (app_assoc b6 a2) in E.
      destruct (@run_unique not_quote _ _ _ _ Fu3 QB (stops_quote _)
                  (stops_quote _) E) as [E3 E1].
      injection E1 as E1. symmetry in E1. rewrite app_assoc in E1.
      destruct (@prefix_before_quote a3 r' (u4 ++ g1) _
                  (@suffix_no_quote a3 a4 SA3) E1
                  (l6 ++ g2 ++ quote :: g3 ++ rest)) as (r'' & Er).
      revert Hnone.
      replace ((u1 ++ quote :: u3 ++ quote :: u4)
                 ++ clause_text g1 l6 g2 g3 ++ rest)
        with (clause_text u1 b6 a2 a3 ++ r'').
      * apply match_here_exists with (g4 := a4). repeat split; assumption.
      * unfold clause_text. repeat rewrite <- app_assoc. cbn [app].
        repeat rewrite <- app_assoc. cbn [app].
        rewrite Er, E3. repeat rewrite <- app_assoc. reflexivity.
Qed.
(* ================================================================== *)
(** * The rewrite step on a script with one clause *)

Lemma skipn_exact : forall (a b : text), skipn (length a) (a ++ b) = b.
Proof. induction a as [|x a IH]; intros b; simpl; auto. Qed.

Lemma firstn_exact : forall (a b : text), firstn (length a) (a ++ b) = a.
Proof. induction a as [|x a IH]; intros b; simpl; [|rewrite IH]; auto. Qed.

Lemma skipn_inside : forall (a b : text) q,
  q < length a -> skipn q (a ++ b) = skipn q a ++ b /\ skipn q a <> [].
Proof.
  intros a b q H. rewrite skipn_app. replace (q - length a) with 0 by lia.
  split; [reflexivity|]. intros E. apply (f_equal (@length ascii)) in E.
  rewrite length_skipn in E. simpl in E. lia.
Qed.

Lemma stops_drop_last : forall p s, stops p s = true -> stops p (drop_last s) = true.
Proof. intros p [|x [|y s]] H; simpl in *; auto. Qed.

Lemma drop_last_app : forall a b : text,
  b <> [] -> drop_last (a ++ b) = a ++ drop_last b.
Proof. intros a b H. unfold drop_last. now apply removelast_app. Qed.

Lemma no_match_except_sound : forall s q0,
  no_match_except pattern_load_csv s q0 = true ->
  forall q, matches_at pattern_load_csv s q -> q = q0.
Proof.
  intros s q0 H q Hm. unfold no_match_except in H.
  rewrite forallb_forall in H. unfold matches_at in Hm.
  destruct (Nat.le_gt_cases q (length s)) as [Hle|Hgt].
  - specialize (H q). rewrite in_seq in H.
    assert (Hin : 0 <= q < 0 + S (length s)) by lia.
    apply H in Hin. apply orb_true_iff in Hin as [Hq|Hq].
    + now apply Nat.eqb_eq.
    + destruct (match_here pattern_load_csv (skipn q s));
        [discriminate | contradiction].
  - rewrite skipn_all2 in Hm by lia. now elim Hm.
Qed.

(** C1, amended. Take a script in which the pattern matches at one place
    only, followed by a body that ends with its semicolon, and whose data
    file exists in the directory of the script under a name that is not
    empty and has no backslash.  The rewrite step produces the text up to
    the clause, the clause with its file reference replaced by
    [file:///name] and nothing else changed, and then one [CALL] block, run
    [IN TRANSACTIONS OF 1000 ROWS], that re-binds the variable of the
    clause and holds the body, its semicolon taken off and its lines
    indented, followed by the [RETURN] tag. *)
Theorem rewrite_wraps_body :
  forall (fs : filesystem) (p : Path)
         (pre clause rest body g1 g2 g3 g4 : text),
    match_here pattern_load_csv (clause ++ rest)
      = Some (rest, clause_caps g1 g2 g3 g4) ->
    (forall q, matches_at pattern_load_csv (pre ++ clause ++ rest) q ->
               q = length pre) ->
    name (parse_path g2) <> [] ->
    forallb not_backslash (name (parse_path g2)) = true ->
    is_file fs (joinpath (parent p) (name (parse_path g2))) = true ->
    strip rest = body ++ str ";" ->
    rewrite fs p (pre ++ clause ++ rest)
    = Rewritten
        (pre ++ g1 ++ str "'file:///" ++ name (parse_path g2) ++ str "'" ++ g3
           ++ [newline] ++ str "CALL {"
           ++ [newline] ++ str "    WITH " ++ g4
           ++ [newline] ++ str "    " ++ indent_newlines body
           ++ [newline] ++ str "} IN TRANSACTIONS OF 1000 ROWS"
           ++ [newline] ++ str "RETURN 'Batch processed from " ++ name p
           ++ str "'").
Proof.
  intros fs p pre clause rest body g1 g2 g3 g4 H0 Huniq Hn Hb Hfile Hsemi.
  assert (Hbody : is_nil (strip rest) = false).
  { rewrite Hsemi. destruct body; reflexivity. }
  assert (Hdrop : drop_last (strip rest) = body).
  { rewrite Hsemi. unfold drop_last. apply removelast_last. }
  set (nm := name (parse_path g2)) in *.
  pose proof H0 as Hsound.
  apply match_here_sound in Hsound
    as (g1' & l6 & g2' & g3' & g4' & E & Ec & Hp & Hstop).
  injection Ec as <- <- <- <-.
  apply app_inv_tail in E. subst clause.
  assert (Hrest : rest <> []).
  { intros ->. vm_compute in Hbody. discriminate. }
  assert (Hnq : forallb not_quote nm = true).
  { destruct (@data_file_name g2 [] Hn) as [_ Hsub].
    eapply forallb_subset; [exact Hsub | apply Hp]. }
  destruct (@replacement_is_clause g1 l6 g2 g3 g4 nm Hp Hnq) as [ER HR].
  pose proof (@replacement_plain g1 l6 g2 g3 g4 nm Hp Hb) as Hplain.
  destruct (@data_file_name g2 (parent p) Hn) as [Hname _]. fold nm in Hname.
  (* no match before the clause, in the script *)
  assert (Hbefore : forall q', q' < length pre ->
            match_here pattern_load_csv
              (skipn q' (pre ++ clause_text g1 l6 g2 g3 ++ rest)) = None).
  { intros q' Hq'.
    destruct (match_here pattern_load_csv
                (skipn q' (pre ++ clause_text g1 l6 g2 g3 ++ rest))) eqn:Em;
      [|reflexivity].
    assert (q' = length pre); [|lia].
    apply Huniq. unfold matches_at. rewrite Em. discriminate. }
  (* the first search, line 188 *)
  assert (S1 : search pattern_load_csv
                 (drop_last (pre ++ clause_text g1 l6 g2 g3 ++ rest))
               = Some (mk_match (length pre) (clause_text g1 l6 g2 g3)
                         (clause_caps g1 g2 g3 g4))).
  { unfold search.
    assert (Hm : match_here pattern_load_csv
                   (skipn (length pre)
                      (drop_last (pre ++ clause_text g1 l6 g2 g3 ++ rest)))
                 = Some (drop_last rest, clause_caps g1 g2 g3 g4)).
    { rewrite !drop_last_app by
        (try assumption; apply clause_text_not_nil).
      rewrite skipn_exact. apply match_here_clause;
        [assumption | now apply stops_drop_last]. }
    rewrite (@search_from_found _ _ _ 0 _ _ Hm).
    - f_equal. f_equal.
      rewrite !drop_last_app by (try assumption; apply clause_text_not_nil).
      rewrite skipn_exact. apply firstn_consumed.
    - intros q' Hq'.
      destruct (match_here pattern_load_csv
                  (skipn q' (drop_last (pre ++ clause_text g1 l6 g2 g3 ++ rest))))
        eqn:Em; [|reflexivity].
      exfalso.
      assert (Hne : match_here pattern_load_csv
                      (skipn q' (pre ++ clause_text g1 l6 g2 g3 ++ rest))
                    <> None).
      { apply match_survives_last. rewrite Em. discriminate. }
      apply Hne, Hbefore, Hq'.
    - rewrite !drop_last_app by (try assumption; apply clause_text_not_nil).
      rewrite length_app. lia. }
  (* the search inside [sub], line 214 *)
  assert (S2 : search pattern_load_csv (pre ++ clause_text g1 l6 g2 g3 ++ rest)
               = Some (mk_match (length pre) (clause_text g1 l6 g2 g3)
                         (clause_caps g1 g2 g3 g4))).
  { unfold search.
    assert (Hm : match_here pattern_load_csv
                   (skipn (length pre) (pre ++ clause_text g1 l6 g2 g3 ++ rest))
                 = Some (rest, clause_caps g1 g2 g3 g4)).
    { rewrite skipn_exact. exact H0. }
    rewrite (@search_from_found _ _ _ 0 _ _ Hm).
    - f_equal. f_equal. rewrite skipn_exact. apply firstn_consumed.
    - exact Hbefore.
    - rewrite length_app. lia. }
  (* the second search, line 222 *)
  set (R := g1 ++ [quote] ++ (str "file:///" ++ nm) ++ [quote] ++ g3) in *.
  assert (S3 : search pattern_load_csv (pre ++ R ++ rest)
               = Some (mk_match (length pre) R
                         (clause_caps g1 (str "//" ++ nm) g3 g4))).
  { unfold search.
    assert (Hm : match_here pattern_load_csv (skipn (length pre) (pre ++ R ++ rest))
                 = Some (rest, clause_caps g1 (str "//" ++ nm) g3 g4)).
    { rewrite skipn_exact, ER. now apply match_here_clause. }
    rewrite (@search_from_found _ _ _ 0 _ _ Hm).
    - f_equal. f_equal. rewrite skipn_exact. apply firstn_consumed.
    - intros q' Hq'.
      destruct (@skipn_inside pre (R ++ rest) q' Hq') as [-> Hu].
      rewrite ER.
      apply no_match_before_clause with (l6 := l6) (g2 := g2) (g4 := g4);
        try assumption.
      destruct (@skipn_inside pre (clause_text g1 l6 g2 g3 ++ rest) q' Hq')
        as [<- _].
      now apply Hbefore.
    - rewrite length_app. lia. }
  unfold rewrite. rewrite S1. cbv zeta.
  cbn [group lookup_group clause_caps Nat.eqb m_caps]. fold nm.
  rewrite Hfile. cbn [negb]. rewrite Hname. fold R.
  rewrite sub_first_plain by exact Hplain. rewrite S2.
  unfold m_end. cbn [m_start m_text].
  rewrite firstn_exact.
  replace (skipn (length pre + length (clause_text g1 l6 g2 g3))
             (pre ++ clause_text g1 l6 g2 g3 ++ rest)) with rest
    by (rewrite app_assoc, <- length_app; symmetry; apply skipn_exact).
  rewrite S3. cbn [m_start m_text].
  replace (firstn (length pre + length R) (pre ++ R ++ rest)) with (pre ++ R)
    by (rewrite app_assoc, <- length_app; symmetry; apply firstn_exact).
  replace (skipn (length pre + length R) (pre ++ R ++ rest)) with rest
    by (rewrite app_assoc, <- length_app; symmetry; apply skipn_exact).
  rewrite Hbody. f_equal. unfold batched_query, R. rewrite Hdrop.
  repeat rewrite <- app_assoc. reflexivity.
Qed.

Lemma rewrite_wraps_body_witness :
  rewrite sample_fs nodes_b good_script
  = Rewritten
      (lines ["LOAD CSV FROM 'file:///nodes_a_data.csv' AS line"%string;
              "CALL {"%string;
              "    WITH line"%string;
              "    CREATE (:METHOD {id: toInteger(line[0])})"%string;
              "} IN TRANSACTIONS OF 1000 ROWS"%string]
       ++ str "RETURN 'Batch processed from nodes_b_cypher.csv'").
Proof.
  refine (@rewrite_wraps_body sample_fs nodes_b []
            (str "LOAD CSV FROM 'file:/nodes_a_data.csv' AS line")
            (newline :: lines ["CREATE (:METHOD {id: toInteger(line[0])});"%string])
            (str "CREATE (:METHOD {id: toInteger(line[0])})")
            (str "LOAD CSV FROM ") (str "nodes_a_data.csv") (str " AS line")
            (str "line") _ _ _ _ _ _).
  - vm_compute. reflexivity.
  - apply no_match_except_sound. vm_compute. reflexivity.
  - vm_compute. discriminate.
  - vm_compute. reflexivity.
  - vm_compute. reflexivity.
  - vm_compute. reflexivity.
Defined.

(* ================================================================== *)
(** * More on file discovery *)

Lemma glob_literal : forall l n,
  no_star l = true -> (glob_match l n = true <-> n = l).
Proof.
  induction l as [|c l IH]; intros n Hl; cbn [glob_match].
  - destruct n; simpl; split; intros H; try reflexivity; discriminate.
  - simpl in Hl. apply andb_true_iff in Hl as [Hc Hl].
    apply negb_true_iff in Hc. rewrite Hc.
    destruct n as [|x n]; [split; discriminate|].
    rewrite andb_true_iff, Ascii.eqb_eq, (IH n Hl). split.
    + intros [-> ->]. reflexivity.
    + intros E. injection E as -> ->. auto.
Qed.

Lemma glob_star : forall suf n,
  no_star suf = true ->
  (glob_match ("*"%char :: suf) n = true <-> exists mid, n = mid ++ suf).
Proof.
  intros suf n Hs. cbn [glob_match]. rewrite Ascii.eqb_refl.
  induction n as [|x n IH].
  - rewrite orb_false_r, (@glob_literal suf _ Hs). split.
    + intros E. exists []. exact E.
    + intros (mid & E). destruct mid; [exact E|discriminate].
  - rewrite orb_true_iff, (@glob_literal suf _ Hs), IH. split.
    + intros [E|(mid & ->)]; [exists []; exact E | exists (x :: mid); reflexivity].
    + intros (mid & E). destruct mid as [|y mid].
      * left. exact E.
      * right. injection E as -> ->. exists mid. reflexivity.
Qed.

Lemma glob_prefix : forall pre rest n,
  no_star pre = true ->
  (glob_match (pre ++ rest) n = true
   <-> exists n', n = pre ++ n' /\ glob_match rest n' = true).
Proof.
  induction pre as [|c pre IH]; intros rest n Hp.
  - simpl. split; [intros H; exists n; auto | intros (n' & -> & H); exact H].
  - simpl in Hp. apply andb_true_iff in Hp as [Hc Hp].
    apply negb_true_iff in Hc. cbn [app glob_match]. rewrite Hc.
    destruct n as [|x n].
    + split; [discriminate | intros (n' & E & _); discriminate].
    + rewrite andb_true_iff, Ascii.eqb_eq, (IH rest n Hp). split.
      * intros [-> (n' & -> & H)]. exists n'. auto.
      * intros (n' & E & H). injection E as -> ->. split; [reflexivity|].
        exists n'. auto.
Qed.

(** A pattern [pre*suf] accepts the names that start with [pre] and go on
    with a text that ends with [suf]. *)
Lemma glob_one_star : forall pre suf n,
  no_star pre = true -> no_star suf = true ->
  (glob_match (pre ++ "*"%char :: suf) n = true
   <-> exists mid, n = pre ++ mid ++ suf).
Proof.
  intros pre suf n Hp Hs. rewrite (@glob_prefix pre _ _ Hp). split.
  - intros (n' & -> & H). apply (@glob_star suf _ Hs) in H as (mid & ->).
    exists mid. reflexivity.
  - intros (mid & ->). exists (mid ++ suf). split; [reflexivity|].
    apply (@glob_star suf _ Hs). exists mid. reflexivity.
Qed.

Lemma node_pattern_iff : forall n,
  glob_match node_pattern n = true
  <-> exists mid, n = str "nodes_" ++ mid ++ str "_cypher.csv".
Proof.
  intros n.
  change node_pattern with (str "nodes_" ++ "*"%char :: str "_cypher.csv").
  now apply glob_one_star.
Qed.

Lemma edge_pattern_iff : forall n,
  glob_match edge_pattern n = true
  <-> exists mid, n = str "edges_" ++ mid ++ str "_cypher.csv".
Proof.
  intros n.
  change edge_pattern with (str "edges_" ++ "*"%char :: str "_cypher.csv").
  now apply glob_one_star.
Qed.

Lemma in_sorted : forall p l, In p (sorted l) <-> In p l.
Proof.
  intros p l. split; apply Permutation_in;
    [apply Permutation_sym|]; apply sorted_perm.
Qed.

Lemma in_glob : forall fs d entries pat p,
  stat fs d = Directory entries ->
  (In p (sorted (glob fs d pat))
   <-> exists n, p = d ++ [n] /\ In n entries /\ glob_match pat n = true).
Proof.
  intros fs d entries pat p Hst. rewrite in_sorted. unfold glob. rewrite Hst.
  rewrite in_map_iff. split.
  - intros (n & <- & Hin). apply filter_In in Hin as [Hin Hm]. eauto.
  - intros (n & -> & Hin & Hm). exists n. split; [reflexivity|].
    apply filter_In. auto.
Qed.

Lemma get_cypher_files_directory : forall fs d entries ns es,
  stat fs d = Directory entries ->
  get_cypher_files fs d = inr (ns, es) ->
  ns = sorted (glob fs d node_pattern) /\ es = sorted (glob fs d edge_pattern).
Proof.
  intros fs d entries ns es Hst H. unfold get_cypher_files, is_dir in H.
  rewrite Hst in H. simpl in H. injection H as <- <-. auto.
Qed.

Lemma discovered_names :
  forall (fs : filesystem) (d : Path) (entries : list text)
         (ns es : list Path),
    stat fs d = Directory entries ->
    get_cypher_files fs d = inr (ns, es) ->
    (forall p, In p ns <->
       exists x, p = d ++ [str "nodes_" ++ x ++ str "_cypher.csv"]
                 /\ In (str "nodes_" ++ x ++ str "_cypher.csv") entries)
    /\ (forall p, In p es <->
       exists x, p = d ++ [str "edges_" ++ x ++ str "_cypher.csv"]
                 /\ In (str "edges_" ++ x ++ str "_cypher.csv") entries).
Proof.
  intros fs d entries ns es Hst H.
  destruct (@get_cypher_files_directory fs d entries ns es Hst H) as [-> ->].
  split; intros p; rewrite (@in_glob fs d entries _ _ Hst).
  - split.
    + intros (n & -> & Hin & Hm). apply node_pattern_iff in Hm as (x & ->).
      eauto.
    + intros (x & -> & Hin). eexists. split; [reflexivity|]. split; [exact Hin|].
      apply node_pattern_iff. eauto.
  - split.
    + intros (n & -> & Hin & Hm). apply edge_pattern_iff in Hm as (x & ->).
      eauto.
    + intros (x & -> & Hin). eexists. split; [reflexivity|]. split; [exact Hin|].
      apply edge_pattern_iff. eauto.
Qed.

(** X1. The files that discovery returns are the entries of the directory
    named [nodes_<x>_cypher.csv] and [edges_<x>_cypher.csv], for any text
    [x], the empty one included, and no others. *)
Theorem discovered_files_are_named :
  forall (fs : filesystem) (d : Path) (entries : list text)
         (ns es : list Path),
    stat fs d = Directory entries ->
    get_cypher_files fs d = inr (ns, es) ->
    (forall p, In p ns <->
       exists x, p = d ++ [str "nodes_" ++ x ++ str "_cypher.csv"]
                 /\ In (str "nodes_" ++ x ++ str "_cypher.csv") entries)
    /\ (forall p, In p es <->
       exists x, p = d ++ [str "edges_" ++ x ++ str "_cypher.csv"]
                 /\ In (str "edges_" ++ x ++ str "_cypher.csv") entries).
Proof. exact discovered_names. Qed.

Lemma discovered_files_witness :
  In nodes_a [nodes_a; nodes_b] <->
    exists x, nodes_a = sample_dir ++ [str "nodes_" ++ x ++ str "_cypher.csv"]
              /\ In (str "nodes_" ++ x ++ str "_cypher.csv")
                   [str "nodes_b_cypher.csv"; str "edges_x_cypher.csv";
                    str "nodes_a_cypher.csv"].
Proof.
  refine (proj1 (@discovered_files_are_named three_scripts_fs sample_dir
                   _ [nodes_a; nodes_b] [edges_x] _ _) nodes_a).
  - vm_compute. reflexivity.
  - vm_compute. reflexivity.
Defined.

(** X2. No file is both a node file and an edge file. *)
Theorem node_and_edge_files_disjoint :
  forall (fs : filesystem) (d : Path) (ns es : list Path) (p : Path),
    get_cypher_files fs d = inr (ns, es) -> In p ns -> ~ In p es.
Proof.
  intros fs d ns es p H Hn He.
  destruct (stat fs d) as [| |entries] eqn:Hst;
    try (unfold get_cypher_files, is_dir in H; rewrite Hst in H; discriminate).
  destruct (@discovered_names fs d entries ns es Hst H) as [Hns Hes].
  apply Hns in Hn as (x & -> & _). apply Hes in He as (y & E & _).
  apply app_inv_head in E. discriminate.
Qed.

Lemma node_and_edge_files_disjoint_witness :
  ~ In nodes_a [edges_x].
Proof.
  refine (@node_and_edge_files_disjoint three_scripts_fs sample_dir
            [nodes_a; nodes_b] [edges_x] nodes_a _ _).
  - vm_compute. reflexivity.
  - left. reflexivity.
Defined.
Section LexOrder.
Variable A : Type.
Variable cmp : A -> A -> comparison.
Hypothesis cmp_eq : forall x y, cmp x y = Eq -> x = y.
Hypothesis cmp_refl : forall x, cmp x x = Eq.
Hypothesis cmp_trans : forall x y z, cmp x y = Lt -> cmp y z = Lt -> cmp x z = Lt.

Lemma lex_compare_eq : forall a b : list A, lex_compare cmp a b = Eq -> a = b.
Proof.
  induction a as [|x a IH]; destruct b as [|y b]; simpl; intros H;
    try discriminate; [reflexivity|].
  destruct (cmp x y) eqn:E; try discriminate.
  apply cmp_eq in E. subst y. f_equal. now apply IH.
Qed.

Lemma lex_compare_refl : forall a : list A, lex_compare cmp a a = Eq.
Proof.
  induction a as [|x a IH]; simpl; [reflexivity|]. now rewrite cmp_refl.
Qed.

Lemma lex_compare_trans : forall a b c : list A,
  lex_compare cmp a b = Lt -> lex_compare cmp b c = Lt ->
  lex_compare cmp a c = Lt.
Proof.
  induction a as [|x a IH]; destruct b as [|y b]; destruct c as [|z c];
    simpl; intros H1 H2; try discriminate; try reflexivity.
  destruct (cmp x y) eqn:Exy; try discriminate.
  - apply cmp_eq in Exy. subst y.
    destruct (cmp x z); try discriminate; [now apply (IH b) | reflexivity].
  - destruct (cmp y z) eqn:Eyz; try discriminate.
    + apply cmp_eq in Eyz. subst z. now rewrite Exy.
    + now rewrite (@cmp_trans _ _ _ Exy Eyz).
Qed.

Lemma lex_compare_app : forall d a b : list A,
  lex_compare cmp (d ++ a) (d ++ b) = lex_compare cmp a b.
Proof.
  induction d as [|x d IH]; intros a b; simpl; [reflexivity|].
  now rewrite cmp_refl.
Qed.
End LexOrder.

Lemma char_compare_eq : forall x y, char_compare x y = Eq -> x = y.
Proof.
  intros x y H. unfold char_compare in H. apply N.compare_eq in H.
  unfold code in H. rewrite <- (ascii_N_embedding x), <- (ascii_N_embedding y).
  now rewrite H.
Qed.

Lemma char_compare_refl : forall x, char_compare x x = Eq.
Proof. intros. apply N.compare_refl. Qed.

Lemma char_compare_trans : forall x y z,
  char_compare x y = Lt -> char_compare y z = Lt -> char_compare x z = Lt.
Proof.
  unfold char_compare. intros x y z H1 H2.
  rewrite N.compare_lt_iff in *. lia.
Qed.

Lemma text_compare_eq : forall a b, text_compare a b = Eq -> a = b.
Proof. apply lex_compare_eq. exact char_compare_eq. Qed.

Lemma text_compare_refl : forall a, text_compare a a = Eq.
Proof. apply lex_compare_refl. exact char_compare_refl. Qed.

Lemma text_compare_trans : forall a b c,
  text_compare a b = Lt -> text_compare b c = Lt -> text_compare a c = Lt.
Proof.
  apply lex_compare_trans;
    [exact char_compare_eq | exact char_compare_trans].
Qed.

Lemma path_compare_eq : forall a b, path_compare a b = Eq -> a = b.
Proof. apply lex_compare_eq. exact text_compare_eq. Qed.

Lemma path_compare_refl : forall a, path_compare a a = Eq.
Proof. apply lex_compare_refl. exact text_compare_refl. Qed.

Lemma path_compare_trans : forall a b c,
  path_compare a b = Lt -> path_compare b c = Lt -> path_compare a c = Lt.
Proof.
  apply lex_compare_trans;
    [exact text_compare_eq | exact text_compare_trans].
Qed.

Lemma path_le_trans : forall a b c, path_le a b -> path_le b c -> path_le a c.
Proof.
  unfold path_le, path_leb. intros a b c H1 H2.
  destruct (path_compare a b) eqn:E1; try discriminate.
  - apply path_compare_eq in E1. now subst b.
  - destruct (path_compare b c) eqn:E2; try discriminate.
    + apply path_compare_eq in E2. subst c. now rewrite E1.
    + now rewrite (@path_compare_trans _ _ _ E1 E2).
Qed.

Lemma path_le_antisym : forall a b, path_le a b -> path_le b a -> a = b.
Proof.
  unfold path_le, path_leb. intros a b H1 H2.
  rewrite (path_compare_antisym a b) in H2.
  destruct (path_compare a b) eqn:E; try discriminate.
  now apply path_compare_eq.
Qed.

Lemma path_compare_same_dir : forall d a b,
  path_compare (d ++ [a]) (d ++ [b]) = text_compare a b.
Proof.
  intros d a b. unfold path_compare.
  rewrite (@lex_compare_app _ text_compare text_compare_refl). simpl.
  destruct (text_compare a b); reflexivity.
Qed.

Lemma sorted_relate : forall (R R' : Path -> Path -> Prop) (P : Path -> Prop) l,
  (forall a b, P a -> P b -> R a b -> R' a b) ->
  Forall P l -> Sorted R l -> Sorted R' l.
Proof.
  intros R R' P l Himp HP Hs. induction Hs as [|x l Hs IH Hhd].
  - constructor.
  - inversion HP as [|? ? Px Pl]; subst. constructor; [now apply IH|].
    destruct Hhd as [|y l Rxy]; constructor.
    inversion Pl; subst. now apply Himp.
Qed.

(** X3. Each of the two lists is in ascending order of the file names,
    compared as Python compares strings: character by character, by code
    point, a proper prefix first. *)
Theorem discovered_files_sorted_by_name :
  forall (fs : filesystem) (d : Path) (ns es : list Path),
    get_cypher_files fs d = inr (ns, es) ->
    Sorted (fun a b => text_le (name a) (name b)) ns
    /\ Sorted (fun a b => text_le (name a) (name b)) es.
Proof.
  intros fs d ns es H.
  destruct (stat fs d) as [| |entries] eqn:Hst;
    try (unfold get_cypher_files, is_dir in H; rewrite Hst in H; discriminate).
  destruct (@get_cypher_files_directory fs d entries ns es Hst H) as [-> ->].
  assert (Himp : forall a b : Path,
             (exists n, a = d ++ [n]) -> (exists n, b = d ++ [n]) ->
             path_le a b -> text_le (name a) (name b)).
  { intros a b (n & ->) (n' & ->) Hle. unfold name. rewrite !last_last.
    unfold path_le, path_leb in Hle. rewrite path_compare_same_dir in Hle.
    unfold text_le. destruct (text_compare n n'); congruence. }
  split; (eapply sorted_relate; [exact Himp | | apply sorted_is_sorted]);
    apply Forall_forall; intros p Hp;
    apply (@in_glob fs d entries _ _ Hst) in Hp as (n & -> & _); eauto.
Qed.

Lemma discovered_files_sorted_witness :
  Sorted (fun a b => text_le (name a) (name b)) [nodes_a; nodes_b]
  /\ Sorted (fun a b => text_le (name a) (name b)) [edges_x].
Proof.
  apply (@discovered_files_sorted_by_name three_scripts_fs sample_dir).
  vm_compute. reflexivity.
Defined.

Lemma sorted_strongly : forall l, StronglySorted path_le (sorted l).
Proof.
  intros l. apply Sorted_StronglySorted; [|apply sorted_is_sorted].
  intros a b c. apply path_le_trans.
Qed.

Lemma strongly_sorted_unique : forall l1 l2 : list Path,
  StronglySorted path_le l1 -> StronglySorted path_le l2 ->
  Permutation l1 l2 -> l1 = l2.
Proof.
  induction l1 as [|x l1 IH]; intros l2 S1 S2 HP.
  - apply Permutation_nil in HP. now subst.
  - destruct l2 as [|y l2]; [apply Permutation_sym, Permutation_nil in HP;
                             discriminate|].
    inversion S1 as [|? ? S1' F1]; subst. inversion S2 as [|? ? S2' F2]; subst.
    assert (Hxy : path_le x y).
    { assert (Hin : In y (x :: l1))
        by (eapply Permutation_in; [apply Permutation_sym, HP | now left]).
      destruct Hin as [->|Hin].
      - unfold path_le, path_leb. now rewrite path_compare_refl.
      - rewrite Forall_forall in F1. now apply F1. }
    assert (Hyx : path_le y x).
    { assert (Hin : In x (y :: l2))
        by (eapply Permutation_in; [apply HP | now left]).
      destruct Hin as [->|Hin].
      - unfold path_le, path_leb. now rewrite path_compare_refl.
      - rewrite Forall_forall in F2. now apply F2. }
    pose proof (@path_le_antisym _ _ Hxy Hyx) as E. subst y.
    f_equal. apply IH; try assumption. now apply Permutation_cons_inv in HP.
Qed.

Lemma filter_perm : forall (f : text -> bool) (l1 l2 : list text),
  Permutation l1 l2 -> Permutation (filter f l1) (filter f l2).
Proof.
  intros f l1 l2 H. induction H as [|x l1 l2 H IH|x y l|l1 l2 l3 H1 IH1 H2 IH2];
    simpl.
  - constructor.
  - destruct (f x); [now constructor | assumption].
  - destruct (f x), (f y); try apply Permutation_refl. apply perm_swap.
  - eapply perm_trans; eassumption.
Qed.

(** X4. The result of discovery does not depend on the order in which the
    directory is listed. *)
Theorem discovery_ignores_listing_order :
  forall (fs1 fs2 : filesystem) (d : Path) (e1 e2 : list text),
    stat fs1 d = Directory e1 ->
    stat fs2 d = Directory e2 ->
    Permutation e1 e2 ->
    get_cypher_files fs1 d = get_cypher_files fs2 d.
Proof.
  intros fs1 fs2 d e1 e2 H1 H2 HP.
  unfold get_cypher_files, is_dir, glob. rewrite H1, H2. simpl.
  f_equal. f_equal;
    apply strongly_sorted_unique; try apply sorted_strongly;
    (eapply perm_trans; [apply Permutation_sym, sorted_perm|]);
    (eapply perm_trans; [|apply sorted_perm]);
    apply Permutation_map, filter_perm, HP.
Qed.

Lemma discovery_ignores_listing_order_witness :
  get_cypher_files sample_fs sample_dir
  = get_cypher_files sample_fs_reordered sample_dir.
Proof.
  eapply discovery_ignores_listing_order.
  - vm_compute. reflexivity.
  - vm_compute. reflexivity.
  - apply Permutation_cons_app with (l1 := [_; _; _; _]) (l2 := []).
    apply Permutation_cons_app with (l1 := [_; _]) (l2 := [_]).
    apply Permutation_cons_app with (l1 := [_; _]) (l2 := []).
    apply Permutation_refl.
Defined.
(* ================================================================== *)
(** * More on [strip] *)

Lemma forallb_lstrip : forall s, forallb is_space (lstrip s) = forallb is_space s.
Proof.
  induction s as [|c s IH]; simpl; [reflexivity|].
  destruct (is_space c) eqn:E; simpl; [exact IH | now rewrite E].
Qed.

Lemma lstrip_stops : forall s, stops is_space (lstrip s) = true.
Proof.
  induction s as [|c s IH]; simpl; [reflexivity|].
  destruct (is_space c) eqn:E; [exact IH | simpl; now rewrite E].
Qed.

Lemma is_nil_lstrip : forall s, is_nil (lstrip s) = forallb is_space s.
Proof.
  intros s. rewrite <- forallb_lstrip. pose proof (lstrip_stops s) as H.
  destruct (lstrip s) as [|x t]; [reflexivity|]. simpl in *.
  apply negb_true_iff in H. now rewrite H.
Qed.

Lemma forallb_rev : forall (f : ascii -> bool) s, forallb f (rev s) = forallb f s.
Proof.
  intros f. induction s as [|c s IH]; simpl; [reflexivity|].
  rewrite forallb_app, IH. simpl. rewrite andb_true_r. apply andb_comm.
Qed.

Lemma is_nil_rev : forall s : text, is_nil (rev s) = is_nil s.
Proof.
  intros [|c s]; [reflexivity|]. simpl. destruct (rev s); reflexivity.
Qed.

(** The test of line 183: a text is blank when all its characters are
    white space. *)
Lemma is_nil_strip : forall s, is_nil (strip s) = forallb is_space s.
Proof.
  intros s. unfold strip, rstrip.
  now rewrite is_nil_rev, is_nil_lstrip, forallb_rev, forallb_lstrip.
Qed.

Lemma rstrip_stops : forall s, stops is_space (rev (rstrip s)) = true.
Proof.
  intros s. unfold rstrip. rewrite rev_involutive. apply lstrip_stops.
Qed.

Lemma lstrip_suffix : forall s, exists w, s = w ++ lstrip s.
Proof.
  induction s as [|c s (w & IH)]; [exists []; reflexivity|]. simpl.
  destruct (is_space c); [exists (c :: w); simpl; now rewrite <- IH
                         | exists []; reflexivity].
Qed.

Lemma rstrip_prefix : forall s, exists w, s = rstrip s ++ w.
Proof.
  intros s. unfold rstrip. destruct (lstrip_suffix (rev s)) as (w & E).
  exists (rev w). rewrite <- rev_app_distr, <- E. now rewrite rev_involutive.
Qed.

Lemma rstrip_keeps_head : forall s,
  stops is_space s = true -> stops is_space (rstrip s) = true.
Proof.
  intros s H. destruct (rstrip_prefix s) as (w & E).
  destruct (rstrip s) as [|x t]; [reflexivity|].
  rewrite E in H. exact H.
Qed.

(** [strip] leaves no white space at either end. *)
Lemma strip_ends : forall s,
  stops is_space (strip s) = true /\ stops is_space (rev (strip s)) = true.
Proof.
  intros s. unfold strip. split.
  - apply rstrip_keeps_head, lstrip_stops.
  - apply rstrip_stops.
Qed.

(* ================================================================== *)
(** * More on the import driver *)

Section DriverMore.
Variable DB : Type.
Variable drv : driver DB.
Variable database_name : text.
Variable fs : filesystem.

Lemma queries_app : forall t1 t2, queries (t1 ++ t2) = queries t1 ++ queries t2.
Proof. intros. unfold queries. apply flat_map_app. Qed.

Lemma run_queries_app : forall qs1 qs2 (db : DB),
  run_queries drv database_name (qs1 ++ qs2) db
  = run_queries drv database_name qs2 (run_queries drv database_name qs1 db).
Proof. intros. unfold run_queries. apply fold_left_app. Qed.

(** A step of the loop, by cases. *)
Lemma process_file_cases : forall (st : loop_state DB) (p : Path),
  (process_file drv database_name fs st p = log_event (Visit p) st
   \/ process_file drv database_name fs st p
      = set_error (log_event (Visit p) st))
  \/ exists content q,
       read_text fs p = ReadOk content
       /\ is_nil (strip content) = false
       /\ rewrite fs p content = Rewritten q
       /\ process_file drv database_name fs st p
          = execute drv database_name p q (log_event (Visit p) st).
Proof.
  intros st p. unfold process_file.
  destruct (read_text fs p) as [content| |]; auto.
  destruct (is_nil (strip content)) eqn:Hb; auto.
  destruct (rewrite fs p content) as [| | | | |q] eqn:Hr; auto.
  right. exists content, q. auto.
Qed.

Lemma execute_cases : forall (st : loop_state DB) p q,
  let st' := execute drv database_name p q st in
  trace st' = trace st ++ [Run p q]
  /\ database st' = snd (session_run drv database_name q (database st))
  /\ ((import_errors st' = import_errors st
       /\ processed_files st' = S (processed_files st))
      \/ (import_errors st' = true
          /\ processed_files st' = processed_files st)).
Proof.
  intros st p q. unfold execute. simpl.
  destruct (session_run drv database_name q (database st)) as [[|msg|] db'];
    simpl; auto.
Qed.

Lemma process_file_invariant : forall db1 files st p,
  In p files ->
  loop_invariant drv database_name fs db1 files st ->
  loop_invariant drv database_name fs db1 files (process_file drv database_name fs st p).
Proof.
  intros db1 files st p Hin (HJ & HD & HP & HQ & HE).
  assert (HV : loop_invariant drv database_name fs db1 files (log_event (Visit p) st)).
  { unfold loop_invariant, log_event. simpl.
    rewrite queries_app, visited_app, !length_app. simpl.
    rewrite !app_nil_r, !Nat.add_0_r.
    split; [apply Forall_app; split; [assumption | repeat constructor; assumption]|].
    split; [assumption|]. split; [assumption|]. split; [lia | assumption]. }
  destruct (process_file_cases st p)
    as [[E | E] | (content & q & Hr & Hb & Hw & E)]; rewrite E; clear E.
  - exact HV.
  - destruct HV as (HJ' & HD' & HP' & HQ' & HE'). unfold loop_invariant.
    simpl in *. split; [|split; [|split; [|split]]]; auto.
  - assert (HS : length (queries (trace (log_event (Visit p) st)))
                   < length (visited (trace (log_event (Visit p) st)))).
    { simpl. rewrite queries_app, visited_app, !length_app. simpl. lia. }
    revert HV HS. generalize (log_event (Visit p) st) as st1.
    intros st1 (HJ' & HD' & HP' & HQ' & HE') HS.
    destruct (execute_cases st1 p q) as (Ht & Hd & Hc).
    unfold loop_invariant. rewrite Ht, Hd.
    rewrite queries_app, visited_app, !length_app, run_queries_app. simpl.
    rewrite ?app_nil_r, ?Nat.add_0_r.
    split; [|split; [|split; [|split]]].
    + apply Forall_app. split; [assumption|]. repeat constructor; eauto.
    + unfold run_queries at 1. simpl. now rewrite HD'.
    + destruct Hc as [[_ ->] | [_ ->]]; lia.
    + lia.
    + destruct Hc as [[He ->] | [-> _]]; [|now left].
      rewrite He. destruct HE' as [HE' | HE']; [now left | right; lia].
Qed.

Lemma process_files_invariant : forall db1 all files st,
  incl files all ->
  loop_invariant drv database_name fs db1 all st ->
  loop_invariant drv database_name fs db1 all (process_files drv database_name fs files st).
Proof.
  intros db1 all. unfold process_files.
  induction files as [|p files IH]; intros st Hincl Hinv; simpl; [assumption|].
  apply IH.
  - intros x Hx. apply Hincl. now right.
  - apply process_file_invariant; [apply Hincl; now left | assumption].
Qed.

Lemma import_loop_invariant : forall (db : DB) nodes edges,
  loop_invariant drv database_name fs
    (snd (session_run drv database_name constraint_query db))
    (nodes ++ edges) (import_loop drv database_name fs db nodes edges).
Proof.
  intros db nodes edges. unfold import_loop.
  apply process_files_invariant; [apply incl_refl|].
  unfold loop_invariant. simpl. split; [|split; [|split; [|split]]]; auto.
Qed.

(** X5. Every query that reaches the database comes from a listed script
    that could be read and was not blank, and is the text that the rewrite
    step made of that script. *)
Theorem only_rewritten_scripts_are_sent :
  forall (db : DB) (nodes edges : list Path),
    Forall (event_justified fs (nodes ++ edges))
      (trace (import_loop drv database_name fs db nodes edges)).
Proof. intros db nodes edges. apply import_loop_invariant. Qed.

(** X6. The database at the end is the database at the start after the
    constraint query and then the queries of the trace, in their order:
    the import does nothing else to it. *)
Theorem database_is_constraint_then_queries :
  forall (db : DB) (nodes edges : list Path),
    let st := import_loop drv database_name fs db nodes edges in
    database st
    = run_queries drv database_name (constraint_query :: queries (trace st)) db.
Proof.
  intros db nodes edges st.
  destruct (import_loop_invariant db nodes edges) as (_ & HD & _).
  exact HD.
Qed.

(** X7. At most one query is sent per listed script, the processed count
    never exceeds the number of queries sent, and when the import returns
    true every query sent was counted as processed. *)
Theorem processed_count_bounds :
  forall (db : DB) (nodes edges : list Path),
    let st := import_loop drv database_name fs db nodes edges in
    length (queries (trace st)) <= length (nodes ++ edges)
    /\ processed_files st <= length (queries (trace st))
    /\ (import_online_neo4j drv database_name fs db nodes edges = true ->
        processed_files st = length (queries (trace st))).
Proof.
  intros db nodes edges st.
  destruct (import_loop_invariant db nodes edges) as (_ & _ & HP & HQ & HE).
  fold st in HP, HQ, HE.
  assert (HV : visited (trace st) = nodes ++ edges).
  { unfold st, import_loop.
    destruct (fold_process_trace drv database_name fs (nodes ++ edges)
                (mk_state false 0
                   (snd (session_run drv database_name constraint_query db)) []))
      as (t & Ht & Hv & _).
    rewrite Ht. simpl. exact Hv. }
  rewrite HV in HQ. repeat split; try assumption.
  intros Hres. unfold import_online_neo4j, import_verdict in Hres. fold st in Hres.
  destruct HE as [HE | HE]; [rewrite HE in Hres; discriminate | exact HE].
Qed.

Lemma process_file_grows : forall (st : loop_state DB) p,
  let st' := process_file drv database_name fs st p in
  (import_errors st = true -> import_errors st' = true)
  /\ processed_files st <= processed_files st'.
Proof.
  intros st p.
  destruct (process_file_cases st p) as [[E | E] | (content & q & _ & _ & _ & E)];
    cbv zeta; rewrite E.
  - simpl. auto.
  - simpl. auto.
  - destruct (execute_cases (log_event (Visit p) st) p q) as (_ & _ & Hc).
    simpl in Hc. destruct Hc as [[-> ->] | [-> ->]]; split; auto; lia.
Qed.

(** X8. An error recorded for one script is never cleared by the scripts
    that follow, and the processed count never goes down. *)
Theorem errors_stay_and_count_grows :
  forall (files : list Path) (st : loop_state DB),
    let st' := process_files drv database_name fs files st in
    (import_errors st = true -> import_errors st' = true)
    /\ processed_files st <= processed_files st'.
Proof.
  unfold process_files.
  induction files as [|p files IH]; intros st; simpl; [auto|].
  destruct (process_file_grows st p) as [H1 H2].
  destruct (IH (process_file drv database_name fs st p)) as [H3 H4].
  simpl in *. split; [auto | lia].
Qed.

Lemma blank_step : forall (st : loop_state DB) p content,
  read_text fs p = ReadOk content ->
  forallb is_space content = true ->
  process_file drv database_name fs st p = log_event (Visit p) st.
Proof.
  intros st p content Hr Hb. unfold process_file.
  now rewrite Hr, is_nil_strip, Hb.
Qed.

(** X9. When the listed scripts are all blank (white space only, or
    empty), and there is at least one, nothing is sent after the constraint
    query and no error is recorded, and yet the import returns false. *)
Theorem only_blank_scripts_fail :
  forall (db : DB) (nodes edges : list Path),
    nodes ++ edges <> [] ->
    (forall p, In p (nodes ++ edges) ->
       exists content,
         read_text fs p = ReadOk content /\ forallb is_space content = true) ->
    let st := import_loop drv database_name fs db nodes edges in
    import_online_neo4j drv database_name fs db nodes edges = false
    /\ import_errors st = false
    /\ queries (trace st) = []
    /\ database st = snd (session_run drv database_name constraint_query db).
Proof.
  intros db nodes edges Hne Hblank st.
  assert (H : forall files st0,
             (forall p, In p files -> In p (nodes ++ edges)) ->
             let st1 := process_files drv database_name fs files st0 in
             import_errors st1 = import_errors st0
             /\ processed_files st1 = processed_files st0
             /\ queries (trace st1) = queries (trace st0)
             /\ database st1 = database st0).
  { unfold process_files. induction files as [|p files IH]; intros st0 Hin;
      simpl; [auto|].
    destruct (Hblank p (Hin p (or_introl eq_refl))) as (content & Hr & Hb).
    rewrite (blank_step st0 p Hr Hb).
    destruct (IH (log_event (Visit p) st0)) as (H1 & H2 & H3 & H4).
    { intros x Hx. apply Hin. now right. }
    simpl in *. rewrite H1, H2, H3, H4, queries_app. simpl.
    rewrite app_nil_r. auto. }
  destruct (H (nodes ++ edges)
              (mk_state false 0
                 (snd (session_run drv database_name constraint_query db)) []))
    as (H1 & H2 & H3 & H4); [auto|].
  unfold st, import_online_neo4j, import_verdict, import_loop.
  simpl in *. rewrite H1, H2, H3, H4. simpl.
  repeat split; auto.
  destruct nodes, edges; simpl; try reflexivity. now elim Hne.
Qed.
End DriverMore.

Lemma only_blank_scripts_witness :
  import_online_neo4j recording_driver (str "neo4j") blank_fs []
    [nodes_a] [edges_x] = false
  /\ import_errors
       (import_loop recording_driver (str "neo4j") blank_fs []
          [nodes_a] [edges_x]) = false
  /\ queries
       (trace (import_loop recording_driver (str "neo4j") blank_fs []
                 [nodes_a] [edges_x])) = []
  /\ database
       (import_loop recording_driver (str "neo4j") blank_fs []
          [nodes_a] [edges_x])
     = snd (session_run recording_driver (str "neo4j") constraint_query []).
Proof.
  apply (@only_blank_scripts_fail (list text) recording_driver (str "neo4j")
           blank_fs [] [nodes_a] [edges_x]).
  - discriminate.
  - intros p _. exists blank_script. split; reflexivity.
Defined.
(* ================================================================== *)
(** * More on the rewrite step *)

(** X10. The data file is looked for as a direct entry of the script's
    directory, under the last component of the reference: directories in
    the reference are dropped, and the name has no separator. *)
Theorem data_file_is_direct_entry :
  forall (p : Path) (m : re_match),
    name (parse_path (group m 2)) <> [] ->
    data_file_of p m = parent p ++ [name (parse_path (group m 2))]
    /\ no_slash (name (parse_path (group m 2))) = true.
Proof.
  intros p m Hn. set (nm := name (parse_path (group m 2))) in *.
  assert (Hin : In nm (parse_path (group m 2))).
  { unfold nm, name. apply last_in. intros E. apply Hn. unfold nm, name.
    rewrite E. reflexivity. }
  unfold parse_path in Hin. apply filter_In in Hin as [Hin Hf].
  destruct (split_on_components _ _ _ Hin) as [Hs _].
  split; [|exact Hs].
  unfold data_file_of. fold nm. unfold joinpath. f_equal.
  unfold parse_path. rewrite (split_on_no_sep _ _ Hs). cbn [filter].
  now rewrite Hf.
Qed.

Lemma data_file_is_direct_entry_witness :
  data_file_of nodes_a nested_reference = sample_dir ++ [str "x.csv"]
  /\ no_slash (str "x.csv") = true.
Proof.
  apply (@data_file_is_direct_entry nodes_a nested_reference).
  vm_compute. discriminate.
Defined.

Lemma firstn_through : forall (a b c : text),
  firstn (length a + length b) (a ++ b ++ c) = a ++ b.
Proof.
  intros a b c. rewrite app_assoc, <- length_app. apply firstn_exact.
Qed.

(** X11. Whatever the script, a query that the rewrite step produces has
    this form: some text that ends with a LOAD CSV clause, then one [CALL]
    block that re-binds a variable name made of word characters and is run
    [IN TRANSACTIONS OF 1000 ROWS], then the [RETURN] tag with the name of
    the script. *)
Theorem rewritten_query_shape :
  forall (fs : filesystem) (p : Path) (content q : text),
    rewrite fs p content = Rewritten q ->
    exists before clause v body,
      q = before ++ clause
            ++ [newline] ++ str "CALL {"
            ++ [newline] ++ str "    WITH " ++ v
            ++ [newline] ++ str "    " ++ indent_newlines body
            ++ [newline] ++ str "} IN TRANSACTIONS OF 1000 ROWS"
            ++ [newline] ++ str "RETURN 'Batch processed from " ++ name p
            ++ str "'"
      /\ (exists caps, matched pattern_load_csv clause [] caps)
      /\ v <> [] /\ forallb is_word v = true.
Proof.
  intros fs p content q H. unfold rewrite in H. cbv zeta in H.
  destruct (search pattern_load_csv (drop_last content)) as [m|] eqn:S1;
    [|discriminate].
  destruct (negb (is_file fs _)); [discriminate|].
  destruct (sub_first _ _ _) as [modified|]; [|discriminate].
  destruct (search pattern_load_csv modified) as [m2|] eqn:S2; [|discriminate].
  destruct (is_nil _); [discriminate|]. injection H as <-.
  apply search_from_inv in S1 as (q1 & rest1 & _ & Hm1 & _ & _ & _).
  apply match_here_sound in Hm1
    as (g1 & l6 & g2 & g3 & g4 & _ & Hc1 & (_ & _ & _ & _ & Hsuf) & _).
  destruct Hsuf as (w6 & a & w7 & _ & _ & _ & _ & _ & _ & N4 & F4).
  destruct m as [st1 tx1 cp1]. cbn [m_caps] in Hc1. subst cp1.
  cbn [group lookup_group clause_caps Nat.eqb m_caps].
  apply search_from_inv in S2 as (q2 & rest2 & Hq2 & Hm2 & Hs2 & Ht2 & _).
  apply match_here_sound in Hm2
    as (h1 & k6 & h2 & h3 & h4 & E2 & Hc2 & Hp2 & _).
  rewrite E2, firstn_consumed in Ht2.
  exists (firstn q2 modified), (clause_text h1 k6 h2 h3), g4,
    (drop_last (strip (skipn (m_end m2) modified))).
  split; [|split; [|split]]; try assumption.
  - unfold batched_query, m_end. rewrite Hs2, Ht2. simpl Nat.add.
    replace (firstn (q2 + length (clause_text h1 k6 h2 h3)) modified)
      with (firstn q2 modified ++ clause_text h1 k6 h2 h3).
    + repeat rewrite <- app_assoc. reflexivity.
    + transitivity
        (firstn (length (firstn q2 modified)
                 + length (clause_text h1 k6 h2 h3))
           (firstn q2 modified ++ clause_text h1 k6 h2 h3 ++ rest2)).
      * symmetry. apply firstn_through.
      * rewrite <- E2, firstn_skipn, length_firstn, Nat.min_l by assumption.
        reflexivity.
  - exists (clause_caps h1 h2 h3 h4). apply matched_pattern.
    exists h1, k6, h2, h3, h4. rewrite app_nil_r. auto.
Qed.

Lemma rewritten_query_shape_witness :
  exists before clause v body,
    lines ["LOAD CSV FROM 'file:///nodes_a_data.csv' AS line"%string;
           "CALL {"%string;
           "    WITH line"%string;
           "    CREATE (:METHOD {id: toInteger(line[0])})"%string;
           "} IN TRANSACTIONS OF 1000 ROWS"%string]
      ++ str "RETURN 'Batch processed from nodes_b_cypher.csv'"
    = before ++ clause
        ++ [newline] ++ str "CALL {"
        ++ [newline] ++ str "    WITH " ++ v
        ++ [newline] ++ str "    " ++ indent_newlines body
        ++ [newline] ++ str "} IN TRANSACTIONS OF 1000 ROWS"
        ++ [newline] ++ str "RETURN 'Batch processed from " ++ name nodes_b
        ++ str "'"
    /\ (exists caps, matched pattern_load_csv clause [] caps)
    /\ v <> [] /\ forallb is_word v = true.
Proof.
  apply (@rewritten_query_shape sample_fs nodes_b good_script).
  vm_compute. reflexivity.
Defined.

(* ================================================================== *)
(** * More on [main] *)

(** X12. How a run ends once the command line is parsed: without a
    password (neither on the command line nor in the environment), or with
    an input path that does not exist or is neither a directory nor a file,
    [main] calls [sys.exit(1)]; in every other case it ends in the
    AttributeError of line 342.  No phase is entered either way. *)
Theorem main_outcome : forall (DB : Type) (w : world DB) (c : cli),
  main w c
  = (if (truthy (cli_neo4j_password c) || truthy (env_password w))
        && path_exists w (cli_input_path c)
        && (path_isdir w (cli_input_path c) || path_isfile w (cli_input_path c))
     then Uncaught (AttributeError "neo4j_url")
     else SysExit 1,
     []).
Proof.
  intros DB w c. unfold main, main_body.
  destruct c as [ip od jm uri usr pw dbn imp].
  cbv [parse_args cli_input_path cli_output_dir cli_jvm_mem cli_neo4j_uri
       cli_neo4j_user cli_neo4j_password cli_neo4j_database
       cli_neo4j_import_dir bind ret attr when sys_exit raise
       getattr setattr String.eqb Ascii.eqb Bool.eqb text_of].
  destruct (truthy pw) eqn:Hpw.
  - destruct (path_exists w ip); cbn; [|reflexivity].
    destruct (path_isdir w ip), (path_isfile w ip); cbn;
      rewrite ?Hpw; cbn; reflexivity.
  - destruct (truthy (env_password w)) eqn:Henv; cbn; [|reflexivity].
    destruct (path_exists w ip); cbn; [|reflexivity].
    destruct (path_isdir w ip), (path_isfile w ip); cbn;
      rewrite ?Henv; cbn; reflexivity.
Qed.

Lemma filter_none : forall (f : text -> bool) (l : list text),
  (forall n, In n l -> f n = false) -> filter f l = [].
Proof.
  intros f. induction l as [|n l IH]; intros H; [reflexivity|]. simpl.
  rewrite (H n (or_introl eq_refl)). apply IH. intros x Hx. apply H. now right.
Qed.

Lemma sorted_nil_glob : forall fs d pat entries,
  stat fs d = Directory entries ->
  (forall n, In n entries -> glob_match pat n = false) ->
  sorted (glob fs d pat) = [].
Proof.
  intros fs d pat entries Hst Hno. unfold glob. rewrite Hst.
  now rewrite (filter_none _ _ Hno).
Qed.

(** X13. In the import phase (lines 410-449), when the export directory
    holds no entry that matches either naming convention, the program ends
    with [sys.exit(0)] right after discovery: no connection to the database
    is attempted. *)
Theorem no_scripts_exit_zero :
  forall (DB : Type) (w : world DB) (args : namespace) (d : Path)
         (entries : list text) (t : list phase),
    stat (export_fs w) d = Directory entries ->
    (forall n, In n entries ->
       glob_match node_pattern n = false /\ glob_match edge_pattern n = false) ->
    import_phase w args d t = (inr (SysExit 0), t ++ [PhaseDiscover]).
Proof.
  intros DB w args d entries t Hst Hno.
  unfold import_phase, get_cypher_files, is_dir. rewrite Hst.
  cbn [negb]. fold node_pattern edge_pattern.
  rewrite (@sorted_nil_glob (export_fs w) d node_pattern entries Hst),
          (@sorted_nil_glob (export_fs w) d edge_pattern entries Hst);
    try (intros n Hn; now apply Hno).
  reflexivity.
Qed.

Lemma no_scripts_exit_zero_witness :
  import_phase empty_export_world (parse_args sample_cli) sample_dir []
  = (inr (SysExit 0), [PhaseDiscover]).
Proof.
  apply (@no_scripts_exit_zero (list text) empty_export_world
           (parse_args sample_cli) sample_dir
           [str "cpg.bin"; str "nodes_a_data.csv"] []).
  - reflexivity.
  - intros n [<-|[<-|[]]]; split; vm_compute; reflexivity.
Defined.

(** X14. In the import phase, a missing export directory is reported as a
    failed import: the FileNotFoundError of discovery is caught, and no
    connection to the database is attempted. *)
Theorem missing_export_directory_fails :
  forall (DB : Type) (w : world DB) (args : namespace) (d : Path)
         (t : list phase),
    is_dir (export_fs w) d = false ->
    import_phase w args d t = (inl false, t ++ [PhaseDiscover]).
Proof.
  intros DB w args d t Hd.
  unfold import_phase, get_cypher_files. rewrite Hd. reflexivity.
Qed.

Lemma missing_export_directory_witness :
  import_phase sample_world (parse_args sample_cli) [str "nowhere"] []
  = (inl false, [PhaseDiscover]).
Proof.
  apply (@missing_export_directory_fails (list text) sample_world
           (parse_args sample_cli) [str "nowhere"] []).
  reflexivity.
Defined.

(** X15. In the import phase, with scripts discovered, a connection that
    cannot be made is reported as a failed import, and the import itself
    is not entered. *)
Theorem failed_connection_fails :
  forall (DB : Type) (w : world DB) (args : namespace) (d : Path)
         (ns es : list Path) (t : list phase),
    get_cypher_files (export_fs w) d = inr (ns, es) ->
    ns ++ es <> [] ->
    connect w = None ->
    import_phase w args d t
    = (inl false, (t ++ [PhaseDiscover]) ++ [PhaseConnect]).
Proof.
  intros DB w args d ns es t Hg Hne Hc. unfold import_phase. rewrite Hg.
  cbv [bind enter ret].
  assert (Hnil : is_nil ns && is_nil es = false).
  { destruct ns, es; simpl; auto. now elim Hne. }
  rewrite Hnil, Hc. reflexivity.
Qed.

Lemma failed_connection_witness :
  import_phase sample_world (parse_args sample_cli) sample_dir []
  = (inl false, [PhaseDiscover; PhaseConnect]).
Proof.
  apply (@failed_connection_fails (list text) sample_world
           (parse_args sample_cli) sample_dir [nodes_a; nodes_b] [edges_x] []).
  - vm_compute. reflexivity.
  - discriminate.
  - reflexivity.
Defined.
(* ================================================================== *)
(** * [run_command] and the hints *)

Lemma strip_not_blank : forall s,
  forallb is_space s = false -> strip s <> [].
Proof.
  intros s H E. rewrite <- is_nil_strip in H. rewrite E in H. discriminate.
Qed.

(** X16. [run_command] reports success exactly when the process ran and
    returned 0, and then hands back its standard output.  After another
    return code the text handed back has no white space at either end; it
    is [N/A] when the standard error is empty, and it is empty exactly when
    the standard error is not empty but blank. *)
Theorem run_command_result_cases :
  forall (o : process_outcome) (shown : text),
    (fst (run_command_result o shown) = true
       <-> exists out err, o = Completed 0 out err)
    /\ (forall out err,
          o = Completed 0 out err -> snd (run_command_result o shown) = out)
    /\ (forall rc out err,
          o = Completed rc out err -> rc <> 0%Z ->
          let r := snd (run_command_result o shown) in
          stops is_space r = true
          /\ stops is_space (rev r) = true
          /\ (err = [] -> r = str "N/A")
          /\ (r = [] <-> err <> [] /\ forallb is_space err = true)).
Proof.
  intros o shown. split; [|split].
  - destruct o as [rc out err| |msg]; simpl.
    + destruct (Z.eqb_spec rc 0) as [->|Hrc]; simpl.
      * split; [eauto | reflexivity].
      * split; [discriminate|]. intros (o' & e' & E). injection E as E _ _.
        contradiction.
    + split; [discriminate | intros (o' & e' & E); discriminate].
    + split; [discriminate | intros (o' & e' & E); discriminate].
  - intros out err ->. reflexivity.
  - intros rc out err -> Hrc. simpl.
    destruct (Z.eqb_spec rc 0) as [->|_]; [contradiction|]. simpl.
    destruct err as [|c err]; simpl is_nil; cbv iota.
    + repeat split; try reflexivity; try discriminate.
      intros [H _]. now elim H.
    + destruct (strip_ends (c :: err)) as [H1 H2].
      split; [exact H1|]. split; [exact H2|]. split; [discriminate|].
      split.
      * intros E. split; [discriminate|].
        rewrite <- is_nil_strip, E. reflexivity.
      * intros [_ Hb]. rewrite <- is_nil_strip in Hb.
        destruct (strip (c :: err)); [reflexivity | discriminate].
Qed.

Lemma starts_with_app : forall a s, starts_with a (a ++ s) = true.
Proof.
  induction a as [|x a IH]; intros s; simpl; [reflexivity|].
  now rewrite Ascii.eqb_refl, IH.
Qed.

Lemma contains_app : forall a pre post, contains a (pre ++ a ++ post) = true.
Proof.
  intros a pre post. induction pre as [|x pre IH]; simpl.
  - destruct (a ++ post) eqn:E; simpl;
      rewrite <- E, starts_with_app; reflexivity.
  - rewrite IH. apply orb_true_r.
Qed.

(** X17. A ClientError whose message has the word [constraint] in it, in
    any mix of upper and lower case, gets the hint about uniqueness
    constraints, whatever else the message says. *)
Theorem constraint_hint_in_any_case :
  forall (pre w post : text),
    map py_lower w = str "constraint" ->
    client_error_hint (pre ++ w ++ post) = Some HintConstraint.
Proof.
  intros pre w post Hw. unfold client_error_hint. cbv zeta.
  rewrite !map_app, Hw, contains_app. reflexivity.
Qed.

Lemma constraint_hint_witness :
  client_error_hint
    (str "Node(1) already exists; " ++ str "ConstraintValidationFailed"
       ++ str " in APOC transaction")
  = Some HintConstraint.
Proof.
  apply (@constraint_hint_in_any_case (str "Node(1) already exists; ")
           (str "Constraint") (str "ValidationFailed in APOC transaction")).
  reflexivity.
Defined.
Section DriverSuccess.
Variable DB : Type.
Variable drv : driver DB.
Variable database_name : text.
Variable fs : filesystem.

Lemma executed_app : forall t1 t2, executed (t1 ++ t2) = executed t1 ++ executed t2.
Proof. intros. unfold executed. apply flat_map_app. Qed.

Lemma good_step : forall (st : loop_state DB) p content q,
  (forall query db, fst (session_run drv database_name query db) = RunOk) ->
  read_text fs p = ReadOk content ->
  is_nil (strip content) = false ->
  rewrite fs p content = Rewritten q ->
  let st' := process_file drv database_name fs st p in
  import_errors st' = import_errors st
  /\ processed_files st' = S (processed_files st)
  /\ executed (trace st') = executed (trace st) ++ [p].
Proof.
  intros st p content q Hok Hr Hb Hw. unfold process_file.
  rewrite Hr, Hb, Hw. unfold execute. simpl.
  pose proof (Hok q (database st)) as H.
  destruct (session_run drv database_name q (database st)) as [o db'].
  simpl in H. subst o. simpl.
  rewrite !executed_app. simpl. rewrite app_nil_r. auto.
Qed.

(** X18. With a database that accepts every query, when every listed
    script can be read, is not blank and is rewritten into a query, and
    there is at least one, the import returns true, the processed count is
    the number of scripts, and the queries are sent in the order of the
    node files followed by the edge files. *)
Theorem well_formed_scripts_succeed :
  forall (db : DB) (nodes edges : list Path),
    (forall query d, fst (session_run drv database_name query d) = RunOk) ->
    (forall p, In p (nodes ++ edges) ->
       exists content q,
         read_text fs p = ReadOk content
         /\ is_nil (strip content) = false
         /\ rewrite fs p content = Rewritten q) ->
    nodes ++ edges <> [] ->
    let st := import_loop drv database_name fs db nodes edges in
    import_online_neo4j drv database_name fs db nodes edges = true
    /\ processed_files st = length (nodes ++ edges)
    /\ executed (trace st) = nodes ++ edges.
Proof.
  intros db nodes edges Hok Hgood Hne st.
  assert (H : forall files st0,
             (forall p, In p files -> In p (nodes ++ edges)) ->
             let st1 := process_files drv database_name fs files st0 in
             import_errors st1 = import_errors st0
             /\ processed_files st1 = processed_files st0 + length files
             /\ executed (trace st1) = executed (trace st0) ++ files).
  { unfold process_files. induction files as [|p files IH]; intros st0 Hin;
      simpl.
    - rewrite Nat.add_0_r, app_nil_r. auto.
    - destruct (Hgood p (Hin p (or_introl eq_refl)))
        as (content & q & Hr & Hb & Hw).
      destruct (good_step st0 p Hok Hr Hb Hw) as (H1 & H2 & H3).
      destruct (IH (process_file drv database_name fs st0 p))
        as (H4 & H5 & H6).
      { intros x Hx. apply Hin. now right. }
      simpl in *. rewrite H4, H5, H6, H1, H2, H3, <- app_assoc. simpl.
      split; [reflexivity|]. split; [lia | reflexivity]. }
  destruct (H (nodes ++ edges)
              (mk_state false 0
                 (snd (session_run drv database_name constraint_query db)) []))
    as (H1 & H2 & H3); [auto|].
  unfold st, import_online_neo4j, import_verdict, import_loop.
  simpl in *. rewrite H1, H2, H3. split; [|auto].
  destruct nodes as [|n nodes]; [destruct edges as [|e edges];
                                 [now elim Hne | reflexivity] | reflexivity].
Qed.
End DriverSuccess.

Lemma well_formed_scripts_witness :
  import_online_neo4j recording_driver (str "neo4j") sample_fs []
    [nodes_b] [edges_x] = true
  /\ processed_files
       (import_loop recording_driver (str "neo4j") sample_fs []
          [nodes_b] [edges_x]) = 2
  /\ executed
       (trace (import_loop recording_driver (str "neo4j") sample_fs []
                 [nodes_b] [edges_x])) = [nodes_b; edges_x].
Proof.
  apply (@well_formed_scripts_succeed (list text) recording_driver
           (str "neo4j") sample_fs [] [nodes_b] [edges_x]).
  - reflexivity.
  - intros p [<-|[<-|[]]]; exists good_script; eexists;
      (split; [reflexivity|]; split; vm_compute; reflexivity).
  - discriminate.
Defined.
